(** * Soft UART: bit-banged serial transceiver (raspberry_soft_uart.c)

    A shallow embedding of the transmit and receive state machines, the
    framing configuration and the session life cycle, followed by the
    properties of the specification that concern them.

    Conventions.
    - C [int] and [unsigned int] values are [Z]; the only arithmetic of the
      driver that can leave the [int] range ([x + y], [x++]) goes through
      [int_add], which writes the 32-bit wrap-around out.
    - The file-scope variables and the function-local statics of the driver
      are the fields of the record [uart]; every function takes the state
      and returns the new one.
    - Calls into the kernel (GPIO, hrtimer, IRQ, tty) are recorded as a list
      of [event]s returned next to the state, in program order.  The mutex
      around [current_tty] is not modelled: the embedding is sequential.
    - Whether a timer is queued, which the driver reads through
      [hrtimer_active], is a boolean of the state; [hrtimer_start] and
      [hrtimer_cancel] set it, and a callback's return value decides it
      after an expiry.
    - [raspberry_soft_uart_init], [raspberry_soft_uart_finalize] and
      [raspberry_soft_uart_set_baudrate] only acquire resources and program
      delays; they are left out. *)

From Stdlib Require Import ZArith List Bool Lia.
Import ListNotations.
Local Open Scope Z_scope.

(** ** Machine integers *)

Module CInt.

Definition wrap_int (z : Z) : Z := (z + 2 ^ 31) mod 2 ^ 32 - 2 ^ 31.

Definition int_add (a b : Z) : Z := wrap_int (a + b).

Definition in_int (z : Z) : Prop := - 2 ^ 31 <= z < 2 ^ 31.

(** C truth value of an [int] used as a condition. *)
Definition truthy (z : Z) : bool := negb (z =? 0).

(** Conversion of an [unsigned int] argument to [unsigned char]. *)
Definition to_uchar (z : Z) : Z := z mod 256.

Definition is_byte (z : Z) : Prop := 0 <= z < 256.

Definition is_bit (z : Z) : Prop := z = 0 \/ z = 1.

End CInt.
Export CInt.

(** ** The transmit queue (queue.h) *)

Module Queue.

(** Modelled from the spec: queue.h and its implementation are not part of
    the sources at hand.  The specification describes the queue as an
    ordered sequence of bytes of bounded capacity C, fixed at construction,
    in FIFO order. *)
Record queue : Type := mkQueue {
  q_items : list Z;
  q_capacity : nat
}.

(** Modelled from the spec: the queue is "cleared and reused across
    open/close cycles; never resized". *)
Definition initialize_queue (q : queue) : queue :=
  {| q_items := []; q_capacity := q_capacity q |}.

(** Modelled from the spec: [len()], the occupied capacity. *)
Definition get_queue_size (q : queue) : Z :=
  Z.of_nat (length (q_items q)).

(** Modelled from the spec: [room()], the capacity remaining. *)
Definition get_queue_room (q : queue) : Z :=
  Z.of_nat (q_capacity q - length (q_items q)).

(** Modelled from the spec: [enqueue(bytes) -> count_accepted] "appends as
    many bytes as remaining capacity allows, in order, then returns how
    many were accepted (0 if full)".  [string_size] is the number of bytes
    the caller offers from [string]. *)
Definition enqueue_string (q : queue) (string : list Z) (string_size : Z)
  : queue * Z :=
  let offered := firstn (Z.to_nat string_size) string in
  let accepted := firstn (q_capacity q - length (q_items q)) offered in
  ({| q_items := q_items q ++ accepted; q_capacity := q_capacity q |},
   Z.of_nat (length accepted)).

(** Modelled from the spec: [dequeue() -> byte | empty] "removes and
    returns the oldest byte, or signals empty". *)
Definition dequeue_character (q : queue) : queue * option Z :=
  match q_items q with
  | [] => (q, None)
  | c :: rest => ({| q_items := rest; q_capacity := q_capacity q |}, Some c)
  end.

(** Size invariant of the specification: size in [0, C]. *)
Definition queue_wf (q : queue) : Prop :=
  (length (q_items q) <= q_capacity q)%nat.

End Queue.
Export Queue.

(** ** Kernel interface: events and handles *)

Inductive hrtimer_id : Type := TimerTx | TimerRx.

(** The two delays the driver ever programs ([period], [half_period]). *)
Inductive interval : Type := Period | HalfPeriod.

Inductive hrtimer_restart : Type := HRTIMER_NORESTART | HRTIMER_RESTART.

(** A tty handed to [open]; [tty_port] is [None] for a NULL port. *)
Record tty_struct : Type := mkTty {
  tty_id : Z;
  tty_port : option Z
}.

Inductive event : Type :=
| GpioSetValue (level : Z)                 (* gpio_set_value(gpio_tx, level) *)
| HrtimerStart (t : hrtimer_id) (d : interval)
| HrtimerForward (t : hrtimer_id)          (* hrtimer_forward(.., period) *)
| HrtimerCancel (t : hrtimer_id)
| EnableIrq
| DisableIrq
| CallbackCall (callback : Z) (character : Z)   (* call through rx_callback *)
| TtyInsertFlipChar (port : Z) (character : Z)
| TtyFlipBufferPush (port : Z).

(** ** Driver state *)

(** [stop_bits], [parity_en], [ignore_parity_errors] and the values derived
    from them: [parity_init], [final_stop_bit_index], [parity_index]. *)
Record line_config : Type := mkConfig {
  stop_bits : Z;
  parity_en : Z;
  ignore_parity_errors : Z;
  parity_init : Z;
  final_stop_bit_index : Z;
  parity_index : Z
}.

(** The statics of [handle_tx]. *)
Record tx_frame : Type := mkTx {
  tx_character : Z;
  tx_bit_index : Z;
  tx_parity : Z
}.

(** [rx_bit_index] and the statics of [handle_rx]. *)
Record rx_frame : Type := mkRx {
  rx_bit_index : Z;
  rx_character : Z;
  rx_parity : Z;
  rx_parity_ok : bool
}.

Record uart : Type := mkUart {
  queue_tx : queue;
  current_tty : option tty_struct;
  rx_callback : option Z;
  timer_tx_active : bool;
  timer_rx_active : bool;
  config : line_config;
  tx : tx_frame;
  rx : rx_frame
}.

Definition with_queue (q : queue) (u : uart) : uart :=
  mkUart q (current_tty u) (rx_callback u) (timer_tx_active u)
         (timer_rx_active u) (config u) (tx u) (rx u).

Definition with_tty (t : option tty_struct) (u : uart) : uart :=
  mkUart (queue_tx u) t (rx_callback u) (timer_tx_active u)
         (timer_rx_active u) (config u) (tx u) (rx u).

Definition with_callback (cb : option Z) (u : uart) : uart :=
  mkUart (queue_tx u) (current_tty u) cb (timer_tx_active u)
         (timer_rx_active u) (config u) (tx u) (rx u).

Definition with_timer_tx (b : bool) (u : uart) : uart :=
  mkUart (queue_tx u) (current_tty u) (rx_callback u) b
         (timer_rx_active u) (config u) (tx u) (rx u).

Definition with_timer_rx (b : bool) (u : uart) : uart :=
  mkUart (queue_tx u) (current_tty u) (rx_callback u) (timer_tx_active u)
         b (config u) (tx u) (rx u).

Definition with_config (c : line_config) (u : uart) : uart :=
  mkUart (queue_tx u) (current_tty u) (rx_callback u) (timer_tx_active u)
         (timer_rx_active u) c (tx u) (rx u).

Definition with_tx (t : tx_frame) (u : uart) : uart :=
  mkUart (queue_tx u) (current_tty u) (rx_callback u) (timer_tx_active u)
         (timer_rx_active u) (config u) t (rx u).

Definition with_rx (r : rx_frame) (u : uart) : uart :=
  mkUart (queue_tx u) (current_tty u) (rx_callback u) (timer_tx_active u)
         (timer_rx_active u) (config u) (tx u) r.

Definition with_rx_bit_index (i : Z) (r : rx_frame) : rx_frame :=
  mkRx i (rx_character r) (rx_parity r) (rx_parity_ok r).

(** The initial values of the file-scope variables and statics, over a
    queue of capacity [cap]. *)
Definition uart_init (cap : nat) : uart :=
  {| queue_tx := {| q_items := []; q_capacity := cap |};
     current_tty := None;
     rx_callback := None;
     timer_tx_active := false;
     timer_rx_active := false;
     config := {| stop_bits := 1; parity_en := 0; ignore_parity_errors := 0;
                  parity_init := 0; final_stop_bit_index := 8;
                  parity_index := -1 |};
     tx := {| tx_character := 0; tx_bit_index := -1; tx_parity := 0 |};
     rx := {| rx_bit_index := -1; rx_character := 0; rx_parity := 0;
              rx_parity_ok := true |} |}.

(** ** Session life cycle *)

(** [raspberry_soft_uart_open]: the cursor reset precedes the test of
    [current_tty]. *)
Definition raspberry_soft_uart_open (tty : tty_struct) (u : uart)
  : uart * list event * Z :=
  let u1 := with_rx (with_rx_bit_index (-1) (rx u)) u in
  match current_tty u1 with
  | None =>
      let u2 := with_tty (Some tty) u1 in
      let u3 := with_queue (initialize_queue (queue_tx u2)) u2 in
      (u3, [EnableIrq], 1)
  | Some _ => (u1, [], 0)
  end.

(** [raspberry_soft_uart_close]. *)
Definition raspberry_soft_uart_close (u : uart) : uart * list event * Z :=
  let u1 := with_timer_tx false u in
  let u2 := with_timer_rx false u1 in
  let u3 := with_tty None u2 in
  (u3, [DisableIrq; HrtimerCancel TimerTx; HrtimerCancel TimerRx], 1).

(** ** Line configuration *)

Definition recalc_indices (c : line_config) : line_config :=
  if truthy (parity_en c) then
    let pi := 8 in
    mkConfig (stop_bits c) (parity_en c) (ignore_parity_errors c)
             (parity_init c) (int_add pi (stop_bits c)) pi
  else
    mkConfig (stop_bits c) (parity_en c) (ignore_parity_errors c)
             (parity_init c) (int_add 7 (stop_bits c)) (-1).

Definition config_set_stop_bits (_stop_bits : Z) (c : line_config)
  : line_config :=
  recalc_indices
    (mkConfig _stop_bits (parity_en c) (ignore_parity_errors c)
              (parity_init c) (final_stop_bit_index c) (parity_index c)).

Definition config_set_parity (_parity_en parity_odd _ignore_parity_errors : Z)
  (c : line_config) : line_config :=
  recalc_indices
    (mkConfig (stop_bits c) _parity_en _ignore_parity_errors
              (if truthy parity_odd then 1 else 0)
              (final_stop_bit_index c) (parity_index c)).

(** [raspberry_soft_uart_set_stop_bits]; always returns 1. *)
Definition raspberry_soft_uart_set_stop_bits (_stop_bits : Z) (u : uart)
  : uart * Z :=
  (with_config (config_set_stop_bits _stop_bits (config u)) u, 1).

(** [raspberry_soft_uart_set_parity]; always returns 1. *)
Definition raspberry_soft_uart_set_parity
  (_parity_en parity_odd _ignore_parity_errors : Z) (u : uart) : uart * Z :=
  (with_config
     (config_set_parity _parity_en parity_odd _ignore_parity_errors (config u))
     u, 1).

(** [raspberry_soft_uart_set_rx_callback]; [None] is the NULL callback. *)
Definition raspberry_soft_uart_set_rx_callback (callback : option Z) (u : uart)
  : uart * Z :=
  (with_callback callback u, 1).

(** ** Transmit queue API *)

(** [raspberry_soft_uart_send_string]: enqueue, then start the TX timer
    when [hrtimer_active] says it is not running. *)
Definition raspberry_soft_uart_send_string (string : list Z) (string_size : Z)
  (u : uart) : uart * list event * Z :=
  let '(q, result) := enqueue_string (queue_tx u) string string_size in
  let u1 := with_queue q u in
  if negb (timer_tx_active u1) then
    (with_timer_tx true u1, [HrtimerStart TimerTx Period], result)
  else
    (u1, [], result).

Definition raspberry_soft_uart_get_tx_queue_room (u : uart) : Z :=
  get_queue_room (queue_tx u).

Definition raspberry_soft_uart_get_tx_queue_size (u : uart) : Z :=
  get_queue_size (queue_tx u).

(** ** Interrupt and timer handlers *)

(** The tail shared by both timer callbacks: forward the timer by one
    period and ask for a restart, or let it lapse. *)
Definition restart_timer (t : hrtimer_id) (must_restart_timer : bool)
  : list event * hrtimer_restart :=
  if must_restart_timer then ([HrtimerForward t], HRTIMER_RESTART)
  else ([], HRTIMER_NORESTART).

(** [handle_rx_start], the falling-edge interrupt handler. *)
Definition handle_rx_start (u : uart) : uart * list event :=
  if rx_bit_index (rx u) =? -1 then
    (with_timer_rx true u, [HrtimerStart TimerRx HalfPeriod])
  else
    (u, []).

(** [handle_tx], the transmit timer callback. *)
Definition handle_tx (u : uart) : uart * list event * hrtimer_restart :=
  let c := config u in
  let character := tx_character (tx u) in
  let bit_index := tx_bit_index (tx u) in
  let parity := tx_parity (tx u) in
  let '(u', gpio, must_restart_timer) :=
    (* Start bit. *)
    if bit_index =? -1 then
      match dequeue_character (queue_tx u) with
      | (q, Some ch) =>
          (with_tx (mkTx ch (int_add bit_index 1) (parity_init c))
                   (with_queue q u),
           [GpioSetValue 0], true)
      | (_, None) => (u, [], false)
      end
    (* Data bits. *)
    else if (0 <=? bit_index) && (bit_index <? 8) then
      let bit_value := Z.land 1 (Z.shiftr character bit_index) in
      (with_tx (mkTx character (int_add bit_index 1) (Z.lxor parity bit_value))
               u,
       [GpioSetValue bit_value], true)
    (* Parity bit (optional). *)
    else if bit_index =? parity_index c then
      (with_tx (mkTx character (int_add bit_index 1) parity) u,
       [GpioSetValue parity], true)
    (* Stop bit(s). *)
    else if bit_index <=? final_stop_bit_index c then
      if bit_index =? final_stop_bit_index c then
        (with_tx (mkTx 0 (-1) 0) u,
         [GpioSetValue 1], 0 <? get_queue_size (queue_tx u))
      else
        (with_tx (mkTx character (int_add bit_index 1) parity) u,
         [GpioSetValue 1], true)
    else
      (u, [], false)
  in
  let '(forward, result) := restart_timer TimerTx must_restart_timer in
  (u', gpio ++ forward, result).

(** [receive_character]: the argument is converted to [unsigned char]; the
    byte goes to the callback when one is set, else to the port of the
    current tty when both exist, else nowhere. *)
Definition receive_character (character : Z) (u : uart) : list event :=
  let character := to_uchar character in
  match rx_callback u with
  | Some callback => [CallbackCall callback character]
  | None =>
      match current_tty u with
      | Some tty =>
          match tty_port tty with
          | Some port =>
              [TtyInsertFlipChar port character; TtyFlipBufferPush port]
          | None => []
          end
      | None => []
      end
  end.

(** [handle_rx], the receive timer callback; [bit_value] is what
    [gpio_get_value(gpio_rx)] returns at this tick. *)
Definition handle_rx (bit_value : Z) (u : uart)
  : uart * list event * hrtimer_restart :=
  let c := config u in
  let index := rx_bit_index (rx u) in
  let character := rx_character (rx u) in
  let parity := rx_parity (rx u) in
  let parity_ok := rx_parity_ok (rx u) in
  let '(u', sink, must_restart_timer) :=
    (* Start bit. *)
    if index =? -1 then
      (with_rx (mkRx (int_add index 1) 0 (parity_init c) true) u, [], true)
    (* Data bits. *)
    else if (0 <=? index) && (index <? 8) then
      let character1 :=
        if bit_value =? 0 then Z.land character 0xfeff
        else Z.lor character 0x0100 in
      (with_rx (mkRx (int_add index 1) (Z.shiftr character1 1)
                     (Z.lxor parity bit_value) parity_ok) u,
       [], true)
    (* Parity bit (optional). *)
    else if index =? parity_index c then
      let parity_ok1 := if negb (bit_value =? parity) then false else parity_ok in
      (with_rx (mkRx (int_add index 1) character parity parity_ok1) u,
       [], true)
    (* Extra stop bit (optional). *)
    else if index <? final_stop_bit_index c then
      (with_rx (mkRx (int_add index 1) character parity parity_ok) u,
       [], true)
    (* Final stop bit. *)
    else if index =? final_stop_bit_index c then
      let sink :=
        if parity_ok || truthy (ignore_parity_errors c)
        then receive_character character u else [] in
      (with_rx (mkRx (-1) character parity parity_ok) u, sink, false)
    else
      (u, [], false)
  in
  let '(forward, result) := restart_timer TimerRx must_restart_timer in
  (u', sink ++ forward, result).

(** How the hrtimer core treats a callback's return value: the timer stays
    queued after [HRTIMER_RESTART] and is inactive after
    [HRTIMER_NORESTART]. *)
Definition still_active (r : hrtimer_restart) : bool :=
  match r with
  | HRTIMER_RESTART => true
  | HRTIMER_NORESTART => false
  end.

(** One expiry of the transmit timer. *)
Definition timer_tx_expires (u : uart) : uart * list event :=
  let '(u', evs, r) := handle_tx u in
  (with_timer_tx (still_active r) u', evs).

(** One expiry of the receive timer, the input line being at [bit_value]. *)
Definition timer_rx_expires (bit_value : Z) (u : uart) : uart * list event :=
  let '(u', evs, r) := handle_rx bit_value u in
  (with_timer_rx (still_active r) u', evs).

(** ** Runs of ticks *)

(** [n] consecutive calls of the transmit callback. *)
Fixpoint tx_ticks (n : nat) (u : uart) : uart * list event :=
  match n with
  | O => (u, [])
  | S n' =>
      let '(u1, evs1, _) := handle_tx u in
      let '(u2, evs2) := tx_ticks n' u1 in
      (u2, evs1 ++ evs2)
  end.

(** One call of the receive callback per sampled level. *)
Fixpoint rx_ticks (samples : list Z) (u : uart) : uart * list event :=
  match samples with
  | [] => (u, [])
  | v :: rest =>
      let '(u1, evs1, _) := handle_rx v u in
      let '(u2, evs2) := rx_ticks rest u1 in
      (u2, evs1 ++ evs2)
  end.

(** The levels driven on the output line, in order. *)
Fixpoint gpio_levels (evs : list event) : list Z :=
  match evs with
  | [] => []
  | GpioSetValue v :: rest => v :: gpio_levels rest
  | _ :: rest => gpio_levels rest
  end.

(** The bytes handed to the sink (callback or tty port), in order. *)
Fixpoint delivered (evs : list event) : list Z :=
  match evs with
  | [] => []
  | CallbackCall _ c :: rest => c :: delivered rest
  | TtyInsertFlipChar _ c :: rest => c :: delivered rest
  | _ :: rest => delivered rest
  end.

(** A sink is attached: a callback is set, or a tty with a port is open. *)
Definition sink_attached (u : uart) : Prop :=
  rx_callback u <> None \/
  exists tty port, current_tty u = Some tty /\ tty_port tty = Some port.

(** Number of bit slots of a frame: start, 8 data, parity if enabled, stops. *)
Definition frame_slots (c : line_config) : nat :=
  (1 + 8 + (if truthy (parity_en c) then 1 else 0) + Z.to_nat (stop_bits c))%nat.

(** ** Specification-side definitions *)

(** The derived layout values agree with the flags (section 3 of the
    specification), the sums being C [int] sums. *)
Definition layout_consistent (c : line_config) : Prop :=
  parity_index c = (if truthy (parity_en c) then 8 else -1) /\
  final_stop_bit_index c =
    int_add (if truthy (parity_en c) then 8 else 7) (stop_bits c).

(** A configuration the setters produce for one or two stop bits. *)
Definition frame_config (c : line_config) : Prop :=
  layout_consistent c /\ (stop_bits c = 1 \/ stop_bits c = 2).

(** Direct LSB-first assembly, in the specification's words: the i-th
    sample received has weight 2^i. *)
Fixpoint assemble_lsb_first (samples : list Z) : Z :=
  match samples with
  | [] => 0
  | s :: rest => s + 2 * assemble_lsb_first rest
  end.

(** The logic level a sampled [gpio_get_value] result stands for. *)
Definition sample_bit (bit_value : Z) : Z := if bit_value =? 0 then 0 else 1.

(** One data tick of [handle_rx] on the shift register alone. *)
Definition rx_shift_in (character bit_value : Z) : Z :=
  Z.shiftr (if bit_value =? 0 then Z.land character 0xfeff
            else Z.lor character 0x0100) 1.

(** The level [handle_tx] drives for data bit [i] of [character]. *)
Definition tx_bit (character : Z) (i : Z) : Z :=
  Z.land 1 (Z.shiftr character i).

(** The eight data levels of a byte, in transmission order. *)
Definition data_bits (character : Z) : list Z :=
  map (fun i => tx_bit character (Z.of_nat i)) (seq 0 8).

(** What the eight data ticks of [handle_tx] ask of the kernel. *)
Definition data_events (character : Z) : list event :=
  flat_map (fun v => [GpioSetValue v; HrtimerForward TimerTx])
           (data_bits character).

(** The optional parity level of a frame: the accumulator of [handle_tx]
    after the eight data bits. *)
Definition parity_levels (c : line_config) (character : Z) : list Z :=
  if truthy (parity_en c)
  then [fold_left Z.lxor (data_bits character) (parity_init c)]
  else [].

(** Number of set bits in a list of levels. *)
Definition set_bits (levels : list Z) : Z :=
  Z.of_nat (count_occ Z.eq_dec levels 1).

(** The state in which the final stop slot finds the receiver, after the
    data samples [d] and the samples [tail] of the parity and extra stop
    slots, as [handle_rx] computes it. *)
Definition rx_at_final_slot (c : line_config) (d tail : list Z) : rx_frame :=
  mkRx (final_stop_bit_index c)
       (fold_left rx_shift_in d 0)
       (fold_left Z.lxor d (parity_init c))
       (if truthy (parity_en c)
        then hd 0 tail =? fold_left Z.lxor d (parity_init c)
        else true).

(** [n] successive calls of [dequeue_character], with the bytes obtained. *)
Fixpoint dequeue_n (n : nat) (q : queue) : queue * list Z :=
  match n with
  | O => (q, [])
  | S n' =>
      match dequeue_character q with
      | (q1, Some c) => let '(q2, cs) := dequeue_n n' q1 in (q2, c :: cs)
      | (q1, None) => (q1, [])
      end
  end.

(** ** Example states *)

Definition example_tty : tty_struct := mkTty 1 (Some 10).

Definition other_tty : tty_struct := mkTty 2 (Some 20).

(** A freshly opened driver with two stop bits and odd parity, and the
    bytes 0x53, 0xA1 queued for transmission. *)
Definition example_uart : uart :=
  let '(u, _, _) := raspberry_soft_uart_open example_tty (uart_init 4) in
  let u := fst (raspberry_soft_uart_set_stop_bits 2 u) in
  let u := fst (raspberry_soft_uart_set_parity 1 1 0 u) in
  let '(u, _, _) := raspberry_soft_uart_send_string [0x53; 0xA1] 2 u in
  u.

(** The same driver four ticks into a received frame: cursor at data
    slot 3. *)
Definition mid_frame_uart : uart :=
  fst (rx_ticks [0; 1; 1; 0] (fst (handle_rx_start example_uart))).

(** A driver with no session, its queue of capacity 2 full, its transmit
    timer idle. *)
Definition full_queue_uart : uart :=
  with_queue (mkQueue [0x41; 0x42] 2) (uart_init 2).

(** A call of [setter] functions, for sequences of reconfigurations. *)
Inductive setter_call : Type :=
| SetStopBits (_stop_bits : Z)
| SetParity (_parity_en parity_odd _ignore_parity_errors : Z).

Definition run_setter (call : setter_call) (u : uart) : uart :=
  match call with
  | SetStopBits n => fst (raspberry_soft_uart_set_stop_bits n u)
  | SetParity en odd ign => fst (raspberry_soft_uart_set_parity en odd ign u)
  end.

Definition run_setters (calls : list setter_call) (u : uart) : uart :=
  fold_left (fun st call => run_setter call st) calls u.

(** ** Baud rate *)

(** What [raspberry_soft_uart_set_baudrate] stores in [period] and
    [half_period] (nanoseconds; [ktime_set(0, n)] is [n]) and the debounce
    it asks of [gpio_set_debounce]. *)
Record baud_timing : Type := mkTiming {
  period : Z;
  half_period : Z;
  debounce : Z
}.

(** [raspberry_soft_uart_set_baudrate]: C division of [int]s truncates
    toward zero ([Z.quot]); the function returns 1. *)
Definition raspberry_soft_uart_set_baudrate (baudrate : Z) : baud_timing * Z :=
  ({| period := Z.quot 1000000000 baudrate;
      half_period := Z.quot (Z.quot 1000000000 baudrate) 2;
      debounce := Z.quot (Z.quot 1000 baudrate) 2 |}, 1).

(** ** Frames and streams *)

(** The levels of one frame on the line. *)
Definition frame_levels (c : line_config) (character : Z) : list Z :=
  0 :: data_bits character ++ parity_levels c character
    ++ repeat 1 (Z.to_nat (stop_bits c)).

(** What [k] stop ticks of [handle_tx] before the final one ask of the
    kernel. *)
Definition stop_events (k : nat) : list event :=
  flat_map (fun _ => [GpioSetValue 1; HrtimerForward TimerTx]) (seq 0 k).

(** A configuration the setters produce for any positive number of stop
    bits whose final slot index fits in an [int]. *)
Definition any_stop_config (c : line_config) : Prop :=
  layout_consistent c /\ 1 <= stop_bits c /\ in_int (8 + stop_bits c).

(** A configuration the setters produce for zero stop bits. *)
Definition no_stop_config (c : line_config) : Prop :=
  layout_consistent c /\ stop_bits c = 0.

(** The list [l] with the bit at position [i] inverted. *)
Fixpoint flip_bit (i : nat) (l : list Z) : list Z :=
  match l with
  | [] => []
  | x :: rest =>
      match i with
      | O => (1 - x) :: rest
      | S i' => x :: flip_bit i' rest
      end
  end.

(** Close the session, open it again on [tty], then queue [string]. *)
Definition reopen_and_send (tty : tty_struct) (string : list Z)
  (string_size : Z) (u : uart) : uart :=
  let '(u1, _, _) := raspberry_soft_uart_close u in
  let '(u2, _, _) := raspberry_soft_uart_open tty u1 in
  let '(u3, _, _) := raspberry_soft_uart_send_string string string_size u2 in
  u3.

(** ** Further example states *)

(** [example_uart] reconfigured for three stop bits. *)
Definition three_stop_uart : uart :=
  fst (raspberry_soft_uart_set_stop_bits 3 example_uart).

(** [example_uart] eleven ticks into a received frame (cursor 10, its
    final stop slot), then reconfigured for one stop bit. *)
Definition stuck_rx_uart : uart :=
  fst (raspberry_soft_uart_set_stop_bits 1
         (fst (rx_ticks [0; 1; 1; 0; 0; 1; 0; 1; 0; 1; 1] example_uart))).

(** [example_uart] eleven ticks into the frame of 0x53 (cursor 10, its
    final stop slot), then reconfigured for one stop bit. *)
Definition stuck_tx_uart : uart :=
  fst (raspberry_soft_uart_set_stop_bits 1 (fst (tx_ticks 11 example_uart))).

(** [example_uart] reconfigured for zero stop bits. *)
Definition zero_stop_uart : uart :=
  fst (raspberry_soft_uart_set_stop_bits 0 example_uart).

(** [example_uart] four ticks into the frame of 0x53 (cursor at data
    slot 3). *)
Definition mid_tx_uart : uart := fst (tx_ticks 4 example_uart).

(** ** Sequences of calls and expiries *)

(** [open] called for each tty in turn, with the values returned. *)
Fixpoint open_all (ttys : list tty_struct) (u : uart) : uart * list Z :=
  match ttys with
  | [] => (u, [])
  | tty :: rest =>
      let '(u1, _, success) := raspberry_soft_uart_open tty u in
      let '(u2, results) := open_all rest u1 in
      (u2, success :: results)
  end.

(** [n] consecutive expiries of the transmit timer. *)
Fixpoint tx_expiries (n : nat) (u : uart) : uart :=
  match n with
  | O => u
  | S n' => tx_expiries n' (fst (timer_tx_expires u))
  end.

(** One expiry of the receive timer per sampled level. *)
Fixpoint rx_expiries (samples : list Z) (u : uart) : uart :=
  match samples with
  | [] => u
  | v :: rest => rx_expiries rest (fst (timer_rx_expires v u))
  end.

(** Transmit ticks still to come before the transmitter falls idle with
    an empty queue: the rest of the frame in progress, then one frame per
    queued byte. *)
Definition tx_pending (u : uart) : Z :=
  (if tx_bit_index (tx u) =? -1 then 0
   else final_stop_bit_index (config u) - tx_bit_index (tx u) + 1)
  + Z.of_nat (length (q_items (queue_tx u)))
    * (final_stop_bit_index (config u) + 2).

(** Receive ticks still to come before the frame in progress ends. *)
Definition rx_pending (u : uart) : Z :=
  final_stop_bit_index (config u) - rx_bit_index (rx u) + 1.

(** ** Proof automation *)

(** Unfold [handle_rx] and rewrite with the equations on the cursor in
    scope. *)
Ltac rx_branch :=
  unfold handle_rx;
  repeat match goal with
         | H : ?x = _ |- context [?x] => rewrite H
         end; cbn.

(** Reduce projections of updated states, then use the layout equations
    in scope. *)
Ltac fields :=
  cbn [fst snd tx rx config queue_tx with_tx with_rx with_queue with_config
       with_timer_tx with_timer_rx with_tty with_callback
       tx_bit_index tx_character tx_parity
       rx_bit_index rx_character rx_parity rx_parity_ok];
  repeat match goal with
         | H : parity_index _ = _ |- _ => rewrite !H
         | H : final_stop_bit_index _ = _ |- _ => rewrite !H
         end.

(** Close arithmetic side goals about pending ticks. *)
Ltac pending_arith :=
  repeat split; try reflexivity; try lia;
  try (symmetry; apply Z.ltb_lt; lia);
  try (symmetry; apply Z.ltb_ge; lia).

(** * Properties *)

(** ** Machine integers *)

Lemma int_add_exact (a b : Z) : in_int (a + b) -> int_add a b = a + b.
Proof.
  unfold in_int, int_add, wrap_int. intros H.
  rewrite Z.mod_small; lia.
Qed.

Lemma int_add_in_int (a b : Z) : in_int (int_add a b).
Proof.
  unfold in_int, int_add, wrap_int.
  pose proof (Z.mod_pos_bound (a + b + 2 ^ 31) (2 ^ 32) ltac:(lia)). lia.
Qed.

Lemma truthy_true (z : Z) : z <> 0 -> truthy z = true.
Proof. unfold truthy. intros H. apply Z.eqb_neq in H. now rewrite H. Qed.


(** ** Line configuration *)

Lemma recalc_indices_layout (c : line_config) :
  layout_consistent (recalc_indices c).
Proof.
  unfold layout_consistent, recalc_indices.
  destruct (truthy (parity_en c)) eqn:E; cbn; rewrite E; auto.
Qed.

Lemma recalc_indices_flags (c : line_config) :
  stop_bits (recalc_indices c) = stop_bits c /\
  parity_en (recalc_indices c) = parity_en c /\
  ignore_parity_errors (recalc_indices c) = ignore_parity_errors c /\
  parity_init (recalc_indices c) = parity_init c.
Proof.
  unfold recalc_indices. destruct (truthy (parity_en c)); cbn; auto.
Qed.

Lemma run_setter_layout (call : setter_call) (u : uart) :
  layout_consistent (config (run_setter call u)).
Proof.
  destruct call; cbn; apply recalc_indices_layout.
Qed.

(** The four layouts of a well-formed frame. *)
Lemma frame_config_cases (c : line_config) :
  frame_config c ->
  (truthy (parity_en c) = false /\ parity_index c = -1 /\
   (stop_bits c = 1 /\ final_stop_bit_index c = 8 \/
    stop_bits c = 2 /\ final_stop_bit_index c = 9)) \/
  (truthy (parity_en c) = true /\ parity_index c = 8 /\
   (stop_bits c = 1 /\ final_stop_bit_index c = 9 \/
    stop_bits c = 2 /\ final_stop_bit_index c = 10)).
Proof.
  intros [[Hp Hf] Hs].
  destruct (truthy (parity_en c)); [right | left];
    (split; [reflexivity | split; [assumption |]]);
    destruct Hs as [Hs | Hs]; rewrite Hs in Hf; [left | right | left | right];
    (split; [assumption | rewrite Hf; reflexivity]).
Qed.

(** ** Receive callback, branch by branch *)

Lemma handle_rx_start_slot (v : Z) (u : uart) :
  rx_bit_index (rx u) = -1 ->
  handle_rx v u =
    (with_rx (mkRx 0 0 (parity_init (config u)) true) u,
     [HrtimerForward TimerRx], HRTIMER_RESTART).
Proof. intros H. rx_branch. reflexivity. Qed.

Lemma handle_rx_data_slot (v : Z) (u : uart) :
  0 <= rx_bit_index (rx u) < 8 ->
  handle_rx v u =
    (with_rx (mkRx (rx_bit_index (rx u) + 1)
                   (rx_shift_in (rx_character (rx u)) v)
                   (Z.lxor (rx_parity (rx u)) v)
                   (rx_parity_ok (rx u))) u,
     [HrtimerForward TimerRx], HRTIMER_RESTART).
Proof.
  intros H. unfold handle_rx.
  replace (rx_bit_index (rx u) =? -1) with false by (symmetry; apply Z.eqb_neq; lia).
  replace ((0 <=? rx_bit_index (rx u)) && (rx_bit_index (rx u) <? 8)) with true
    by (symmetry; apply andb_true_iff; split; [apply Z.leb_le | apply Z.ltb_lt]; lia).
  cbn. rewrite int_add_exact by (unfold in_int; lia). reflexivity.
Qed.

(** Conditions under which the first two branches are skipped. *)
Lemma past_data_slots (i : Z) :
  8 <= i -> (i =? -1) = false /\ ((0 <=? i) && (i <? 8)) = false.
Proof.
  intros H. split; [apply Z.eqb_neq; lia |].
  apply andb_false_iff. right. apply Z.ltb_ge. lia.
Qed.

Lemma handle_rx_parity_slot (v : Z) (u : uart) :
  rx_bit_index (rx u) = 8 ->
  parity_index (config u) = 8 ->
  handle_rx v u =
    (with_rx (mkRx 9 (rx_character (rx u)) (rx_parity (rx u))
                   (if negb (v =? rx_parity (rx u)) then false
                    else rx_parity_ok (rx u))) u,
     [HrtimerForward TimerRx], HRTIMER_RESTART).
Proof. intros Hi Hp. rx_branch. reflexivity. Qed.

Lemma handle_rx_extra_stop_slot (v : Z) (u : uart) :
  8 <= rx_bit_index (rx u) ->
  rx_bit_index (rx u) <> parity_index (config u) ->
  rx_bit_index (rx u) < final_stop_bit_index (config u) ->
  in_int (final_stop_bit_index (config u)) ->
  handle_rx v u =
    (with_rx (mkRx (rx_bit_index (rx u) + 1) (rx_character (rx u))
                   (rx_parity (rx u)) (rx_parity_ok (rx u))) u,
     [HrtimerForward TimerRx], HRTIMER_RESTART).
Proof.
  intros Hi Hp Hf Hr. unfold handle_rx.
  destruct (past_data_slots _ Hi) as [E1 E2]. rewrite E1, E2.
  apply Z.eqb_neq in Hp. rewrite Hp.
  apply Z.ltb_lt in Hf. rewrite Hf. cbn.
  apply Z.ltb_lt in Hf.
  rewrite int_add_exact by (unfold in_int in *; lia). reflexivity.
Qed.

Lemma handle_rx_final_stop_slot (v : Z) (u : uart) :
  8 <= rx_bit_index (rx u) ->
  rx_bit_index (rx u) <> parity_index (config u) ->
  rx_bit_index (rx u) = final_stop_bit_index (config u) ->
  handle_rx v u =
    (with_rx (mkRx (-1) (rx_character (rx u)) (rx_parity (rx u))
                   (rx_parity_ok (rx u))) u,
     (if rx_parity_ok (rx u) || truthy (ignore_parity_errors (config u))
      then receive_character (rx_character (rx u)) u else []),
     HRTIMER_NORESTART).
Proof.
  intros Hi Hp Hf. unfold handle_rx.
  destruct (past_data_slots _ Hi) as [E1 E2]. rewrite E1, E2.
  apply Z.eqb_neq in Hp. rewrite Hp.
  rewrite <- Hf, Z.ltb_irrefl, Z.eqb_refl. cbn.
  rewrite app_nil_r. reflexivity.
Qed.

(** ** Runs of receive ticks *)

Lemma rx_ticks_app (a b : list Z) (u : uart) :
  rx_ticks (a ++ b) u =
    (fst (rx_ticks b (fst (rx_ticks a u))),
     snd (rx_ticks a u) ++ snd (rx_ticks b (fst (rx_ticks a u)))).
Proof.
  revert u. induction a as [| v a IH]; intros u; cbn.
  - now destruct (rx_ticks b u).
  - destruct (handle_rx v u) as [[u1 e1] r1]. rewrite IH.
    destruct (rx_ticks a u1) as [u2 e2]; cbn.
    destruct (rx_ticks b u2) as [u3 e3]; cbn.
    now rewrite app_assoc.
Qed.

Lemma rx_ticks_data (d : list Z) : forall (u : uart),
  0 <= rx_bit_index (rx u) ->
  rx_bit_index (rx u) + Z.of_nat (length d) <= 8 ->
  rx_ticks d u =
    (with_rx (mkRx (rx_bit_index (rx u) + Z.of_nat (length d))
                   (fold_left rx_shift_in d (rx_character (rx u)))
                   (fold_left Z.lxor d (rx_parity (rx u)))
                   (rx_parity_ok (rx u))) u,
     repeat (HrtimerForward TimerRx) (length d)).
Proof.
  induction d as [| v d IH]; intros u H0 H8.
  - cbn. rewrite Z.add_0_r. now destruct u as [? ? ? ? ? ? ? []].
  - cbn [rx_ticks length] in *. rewrite Nat2Z.inj_succ in *.
    rewrite handle_rx_data_slot by lia.
    rewrite IH by (cbn [rx with_rx rx_bit_index]; lia).
    cbn [rx with_rx rx_bit_index rx_character rx_parity rx_parity_ok
         fold_left repeat app].
    replace (rx_bit_index (rx u) + Z.succ (Z.of_nat (length d)))
      with (rx_bit_index (rx u) + 1 + Z.of_nat (length d)) by lia.
    reflexivity.
Qed.

(** The receiver's state when the final stop slot is reached: after the
    start tick, the eight data ticks over [d], and the ticks over [tail]
    (the parity slot if enabled, then the extra stop slot if there is one). *)
Lemma rx_frame_before_final (u : uart) (v0 : Z) (d tail : list Z) :
  rx_bit_index (rx u) = -1 ->
  frame_config (config u) ->
  length d = 8%nat ->
  length tail = (frame_slots (config u) - 10)%nat ->
  rx_ticks (v0 :: d ++ tail) u =
    (with_rx (mkRx (final_stop_bit_index (config u))
                   (fold_left rx_shift_in d 0)
                   (fold_left Z.lxor d (parity_init (config u)))
                   (if truthy (parity_en (config u))
                    then hd 0 tail =? fold_left Z.lxor d (parity_init (config u))
                    else true)) u,
     repeat (HrtimerForward TimerRx) (length (v0 :: d ++ tail))).
Proof.
  intros Hi Hc Hd Ht.
  assert (Hr : in_int (final_stop_bit_index (config u))).
  { destruct Hc as [[_ Hf] _]. rewrite Hf. apply int_add_in_int. }
  cbn [rx_ticks]. rewrite handle_rx_start_slot by assumption.
  rewrite rx_ticks_app.
  rewrite (rx_ticks_data d)
    by (cbn [rx with_rx rx_bit_index]; rewrite ?Hd; change (Z.of_nat 8) with 8; lia).
  cbn [rx with_rx rx_bit_index rx_character rx_parity rx_parity_ok fst snd].
  rewrite Hd. change (0 + Z.of_nat 8) with 8.
  cbn [length]. rewrite length_app, Hd.
  unfold frame_slots in Ht.
  destruct (frame_config_cases _ Hc)
    as [(Ep & Hp & [[Hs Hf] | [Hs Hf]]) | (Ep & Hp & [[Hs Hf] | [Hs Hf]])];
    rewrite Ep, Hs in Ht; rewrite Ep, Hf; cbn in Ht.
  - (* no parity, one stop bit *)
    destruct tail; [| discriminate]. reflexivity.
  - (* no parity, two stop bits *)
    destruct tail as [| v1 [| ? ?]]; try discriminate.
    cbn [rx_ticks]. rewrite handle_rx_extra_stop_slot; cbn; rewrite ?Hp, ?Hf;
      try lia; try assumption; [reflexivity | now rewrite <- Hf].
  - (* parity, one stop bit *)
    destruct tail as [| v1 [| ? ?]]; try discriminate.
    cbn [rx_ticks]. rewrite handle_rx_parity_slot by (cbn; assumption || reflexivity).
    cbn. destruct (v1 =? _); reflexivity.
  - (* parity, two stop bits *)
    destruct tail as [| v1 [| v2 [| ? ?]]]; try discriminate.
    cbn [rx_ticks]. rewrite handle_rx_parity_slot by (cbn; assumption || reflexivity).
    rewrite handle_rx_extra_stop_slot; cbn; rewrite ?Hp, ?Hf;
      try lia; try assumption; [| now rewrite <- Hf].
    destruct (v1 =? _); reflexivity.
Qed.

(** ** The shift register *)

Lemma testbit_byte_high (c n : Z) : is_byte c -> 8 <= n -> Z.testbit c n = false.
Proof.
  intros Hc Hn. rewrite <- (Z.mod_small c (2 ^ 8)) by (unfold is_byte in Hc; lia).
  apply Z.mod_pow2_bits_high. lia.
Qed.

Lemma land_feff_byte (c : Z) : is_byte c -> Z.land c 0xfeff = c.
Proof.
  intros Hc. apply Z.bits_inj'. intros n Hn. rewrite Z.land_spec.
  destruct (Z_lt_le_dec n 8) as [Hlt | Hge].
  - assert (Hcases : n = 0 \/ n = 1 \/ n = 2 \/ n = 3 \/
                     n = 4 \/ n = 5 \/ n = 6 \/ n = 7) by lia.
    repeat (destruct Hcases as [-> | Hcases]; [apply andb_true_r |]).
    subst n. apply andb_true_r.
  - now rewrite testbit_byte_high.
Qed.

Lemma lor_0100_byte (c : Z) : is_byte c -> Z.lor c 0x0100 = c + 256.
Proof.
  intros Hc.
  assert (Hland : Z.land c 256 = 0).
  { apply Z.bits_inj'. intros n Hn. rewrite Z.land_spec, Z.bits_0.
    destruct (Z_lt_le_dec n 8) as [Hlt | Hge].
    - change 256 with (2 ^ 8). rewrite Z.pow2_bits_eqb by lia.
      replace (8 =? n) with false by (symmetry; apply Z.eqb_neq; lia).
      apply andb_false_r.
    - now rewrite testbit_byte_high. }
  pose proof (Z.add_lor_land c 256) as H. rewrite Hland in H. lia.
Qed.

Lemma rx_shift_in_byte (c v : Z) :
  is_byte c -> rx_shift_in c v = c / 2 + 128 * sample_bit v.
Proof.
  intros Hc. unfold rx_shift_in, sample_bit.
  rewrite Z.shiftr_div_pow2 by lia. change (2 ^ 1) with 2.
  destruct (v =? 0).
  - rewrite land_feff_byte by assumption. lia.
  - rewrite lor_0100_byte by assumption.
    replace (c + 256) with (c + 128 * 2) by lia.
    rewrite Z.div_add by lia. lia.
Qed.

Lemma sample_bit_is_bit (v : Z) : is_bit (sample_bit v).
Proof. unfold is_bit, sample_bit. destruct (v =? 0); auto. Qed.

Lemma rx_shift_in_is_byte (c v : Z) : is_byte c -> is_byte (rx_shift_in c v).
Proof.
  intros Hc. rewrite rx_shift_in_byte by assumption.
  unfold is_byte in *. destruct (sample_bit_is_bit v) as [-> | ->];
    Z.div_mod_to_equations; lia.
Qed.

Lemma assemble_lsb_first_bound (l : list Z) :
  Forall is_bit l -> 0 <= assemble_lsb_first l < 2 ^ Z.of_nat (length l).
Proof.
  induction 1 as [| x l Hx _ IH]; [cbn; lia |].
  cbn [assemble_lsb_first length]. rewrite Nat2Z.inj_succ, Z.pow_succ_r by lia.
  destruct Hx as [-> | ->]; lia.
Qed.

(** The register after any run of at most eight data ticks. *)
Lemma fold_rx_shift_in (d : list Z) : forall c : Z,
  is_byte c -> (length d <= 8)%nat ->
  fold_left rx_shift_in d c =
    c / 2 ^ Z.of_nat (length d) +
    2 ^ (8 - Z.of_nat (length d)) * assemble_lsb_first (map sample_bit d).
Proof.
  induction d as [| v d IH]; intros c Hc Hlen.
  - cbn. rewrite Z.div_1_r. lia.
  - cbn [fold_left length map assemble_lsb_first] in *.
    rewrite IH by (try apply rx_shift_in_is_byte; auto; lia).
    rewrite rx_shift_in_byte by assumption.
    rewrite Nat2Z.inj_succ, Z.pow_succ_r by lia.
    set (k := Z.of_nat (length d)).
    assert (Hk : 0 <= k <= 7) by (subst k; lia).
    replace (8 - k) with (Z.succ (7 - k)) by lia.
    replace (8 - Z.succ k) with (7 - k) by lia.
    rewrite Z.pow_succ_r by lia.
    assert (H128 : 128 = 2 ^ (7 - k) * 2 ^ k).
    { rewrite <- Z.pow_add_r by lia. now replace (7 - k + k) with 7 by lia. }
    rewrite H128.
    replace (2 ^ (7 - k) * 2 ^ k * sample_bit v)
      with (2 ^ (7 - k) * sample_bit v * 2 ^ k) by ring.
    rewrite Z.div_add by (apply Z.pow_nonzero; lia).
    rewrite Z.div_div by (try apply Z.pow_pos_nonneg; lia).
    ring.
Qed.

(** After exactly eight data ticks from a cleared register, the register
    is the LSB-first value of the samples. *)
Lemma rx_register_after_data (d : list Z) :
  length d = 8%nat ->
  fold_left rx_shift_in d 0 = assemble_lsb_first (map sample_bit d).
Proof.
  intros Hd. rewrite fold_rx_shift_in by (unfold is_byte; lia).
  rewrite Hd. change (0 / 2 ^ Z.of_nat 8) with 0.
  change (2 ^ (8 - Z.of_nat 8)) with 1. lia.
Qed.

Lemma assembled_is_byte (d : list Z) :
  length d = 8%nat -> is_byte (assemble_lsb_first (map sample_bit d)).
Proof.
  intros Hd.
  pose proof (assemble_lsb_first_bound (map sample_bit d)) as H.
  rewrite length_map, Hd in H. apply H.
  apply Forall_forall. intros x Hx. apply in_map_iff in Hx.
  destruct Hx as (v & <- & _). apply sample_bit_is_bit.
Qed.

(** ** Transmit callback, branch by branch *)

Lemma handle_tx_start_slot (u : uart) (b : Z) (rest : list Z) :
  tx_bit_index (tx u) = -1 ->
  q_items (queue_tx u) = b :: rest ->
  handle_tx u =
    (with_tx (mkTx b 0 (parity_init (config u)))
             (with_queue (mkQueue rest (q_capacity (queue_tx u))) u),
     [GpioSetValue 0; HrtimerForward TimerTx], HRTIMER_RESTART).
Proof.
  intros Hi Hq. unfold handle_tx, dequeue_character. rewrite Hi, Hq. reflexivity.
Qed.

Lemma handle_tx_idle_empty (u : uart) :
  tx_bit_index (tx u) = -1 ->
  q_items (queue_tx u) = [] ->
  handle_tx u = (u, [], HRTIMER_NORESTART).
Proof.
  intros Hi Hq. unfold handle_tx, dequeue_character. rewrite Hi, Hq. reflexivity.
Qed.

Lemma handle_tx_data_slot (u : uart) :
  0 <= tx_bit_index (tx u) < 8 ->
  handle_tx u =
    (with_tx (mkTx (tx_character (tx u)) (tx_bit_index (tx u) + 1)
                   (Z.lxor (tx_parity (tx u))
                           (tx_bit (tx_character (tx u)) (tx_bit_index (tx u)))))
             u,
     [GpioSetValue (tx_bit (tx_character (tx u)) (tx_bit_index (tx u)));
      HrtimerForward TimerTx],
     HRTIMER_RESTART).
Proof.
  intros H. unfold handle_tx.
  replace (tx_bit_index (tx u) =? -1) with false by (symmetry; apply Z.eqb_neq; lia).
  replace ((0 <=? tx_bit_index (tx u)) && (tx_bit_index (tx u) <? 8)) with true
    by (symmetry; apply andb_true_iff; split; [apply Z.leb_le | apply Z.ltb_lt]; lia).
  cbn. rewrite int_add_exact by (unfold in_int; lia). reflexivity.
Qed.

Lemma handle_tx_parity_slot (u : uart) :
  tx_bit_index (tx u) = 8 ->
  parity_index (config u) = 8 ->
  handle_tx u =
    (with_tx (mkTx (tx_character (tx u)) 9 (tx_parity (tx u))) u,
     [GpioSetValue (tx_parity (tx u)); HrtimerForward TimerTx],
     HRTIMER_RESTART).
Proof.
  intros Hi Hp. unfold handle_tx. rewrite Hi, Hp. reflexivity.
Qed.

Lemma handle_tx_stop_slot (u : uart) :
  8 <= tx_bit_index (tx u) ->
  tx_bit_index (tx u) <> parity_index (config u) ->
  tx_bit_index (tx u) < final_stop_bit_index (config u) ->
  in_int (final_stop_bit_index (config u)) ->
  handle_tx u =
    (with_tx (mkTx (tx_character (tx u)) (tx_bit_index (tx u) + 1)
                   (tx_parity (tx u))) u,
     [GpioSetValue 1; HrtimerForward TimerTx], HRTIMER_RESTART).
Proof.
  intros Hi Hp Hf Hr. unfold handle_tx.
  destruct (past_data_slots _ Hi) as [E1 E2]. rewrite E1, E2.
  apply Z.eqb_neq in Hp. rewrite Hp.
  replace (tx_bit_index (tx u) <=? final_stop_bit_index (config u)) with true
    by (symmetry; apply Z.leb_le; lia).
  replace (tx_bit_index (tx u) =? final_stop_bit_index (config u)) with false
    by (symmetry; apply Z.eqb_neq; lia).
  cbn. rewrite int_add_exact by (unfold in_int in *; lia). reflexivity.
Qed.

Lemma handle_tx_final_stop_slot (u : uart) :
  8 <= tx_bit_index (tx u) ->
  tx_bit_index (tx u) <> parity_index (config u) ->
  tx_bit_index (tx u) = final_stop_bit_index (config u) ->
  handle_tx u =
    (with_tx (mkTx 0 (-1) 0) u,
     GpioSetValue 1 ::
       fst (restart_timer TimerTx (0 <? get_queue_size (queue_tx u))),
     snd (restart_timer TimerTx (0 <? get_queue_size (queue_tx u)))).
Proof.
  intros Hi Hp Hf. unfold handle_tx.
  destruct (past_data_slots _ Hi) as [E1 E2]. rewrite E1, E2.
  apply Z.eqb_neq in Hp. rewrite Hp.
  rewrite <- Hf, Z.leb_refl, Z.eqb_refl.
  now destruct (restart_timer _ _).
Qed.

(** ** Runs of transmit ticks *)

Lemma gpio_levels_app (a b : list event) :
  gpio_levels (a ++ b) = gpio_levels a ++ gpio_levels b.
Proof.
  induction a as [| e a IH]; [reflexivity |].
  destruct e; cbn; rewrite IH; reflexivity.
Qed.

Lemma delivered_app (a b : list event) :
  delivered (a ++ b) = delivered a ++ delivered b.
Proof.
  induction a as [| e a IH]; [reflexivity |].
  destruct e; cbn; rewrite IH; reflexivity.
Qed.

Lemma gpio_levels_restart_timer (t : hrtimer_id) (b : bool) :
  gpio_levels (fst (restart_timer t b)) = [].
Proof. now destruct b. Qed.


Lemma tx_ticks_cons (n : nat) (u u1 u2 : uart) (e1 e2 : list event)
  (r : hrtimer_restart) :
  handle_tx u = (u1, e1, r) ->
  tx_ticks n u1 = (u2, e2) ->
  tx_ticks (S n) u = (u2, e1 ++ e2).
Proof. intros H1 H2. cbn [tx_ticks]. now rewrite H1, H2. Qed.

Lemma tx_ticks_add (n m : nat) : forall (u u1 u2 : uart) (e1 e2 : list event),
  tx_ticks n u = (u1, e1) ->
  tx_ticks m u1 = (u2, e2) ->
  tx_ticks (n + m) u = (u2, e1 ++ e2).
Proof.
  induction n as [| n IH]; intros u u1 u2 e1 e2 H1 H2.
  - cbn in H1. injection H1 as <- <-. exact H2.
  - change (S n + m)%nat with (S (n + m)). cbn [tx_ticks] in *.
    destruct (handle_tx u) as [[ua ea] ra].
    destruct (tx_ticks n ua) as [ub eb] eqn:Hn.
    injection H1 as <- <-.
    rewrite (IH ua ub u2 eb e2 Hn H2). now rewrite app_assoc.
Qed.

(** The eight data ticks, from data slot 0. *)
Lemma tx_ticks_data (u : uart) (ch p : Z) :
  tx_ticks 8 (with_tx (mkTx ch 0 p) u) =
    (with_tx (mkTx ch 8 (fold_left Z.lxor (data_bits ch) p)) u,
     data_events ch).
Proof.
  do 8 (eapply tx_ticks_cons;
        [ rewrite handle_tx_data_slot by (fields; lia); fields; reflexivity |]).
  reflexivity.
Qed.

Lemma gpio_levels_data_events (ch : Z) :
  gpio_levels (data_events ch) = data_bits ch.
Proof. reflexivity. Qed.

(** A whole frame sent from the idle state: the line carries the start
    bit, the data bits, the parity bit if enabled and the stop bits, and the
    transmitter is idle again with the byte removed from the queue. *)
Lemma tx_frame_run (u : uart) (b : Z) (rest : list Z) :
  tx_bit_index (tx u) = -1 ->
  q_items (queue_tx u) = b :: rest ->
  frame_config (config u) ->
  exists evs : list event,
    tx_ticks (frame_slots (config u)) u =
      (with_tx (mkTx 0 (-1) 0)
               (with_queue (mkQueue rest (q_capacity (queue_tx u))) u), evs) /\
    gpio_levels evs =
      0 :: data_bits b ++ parity_levels (config u) b
        ++ repeat 1 (Z.to_nat (stop_bits (config u))).
Proof.
  intros Hi Hq Hc.
  assert (Hr : in_int (final_stop_bit_index (config u))).
  { destruct Hc as [[_ Hf] _]. rewrite Hf. apply int_add_in_int. }
  unfold frame_slots, parity_levels.
  destruct (frame_config_cases _ Hc)
    as [(Ep & Hp & [[Hs Hf] | [Hs Hf]]) | (Ep & Hp & [[Hs Hf] | [Hs Hf]])];
    rewrite Ep, Hs;
    match goal with
    | |- context [tx_ticks ?n u] =>
        let k := eval cbv in (n - 9)%nat in
        change n with (S (8 + k))
    end;
    eexists; (split;
    [ eapply tx_ticks_cons;
      [ apply handle_tx_start_slot; eassumption
      | eapply tx_ticks_add; [apply tx_ticks_data |] ] |]).
  - (* no parity, one stop bit *)
    eapply tx_ticks_cons;
      [ rewrite handle_tx_final_stop_slot by (fields; lia); reflexivity
      | reflexivity ].
  - rewrite !gpio_levels_app, gpio_levels_data_events.
    cbn [gpio_levels app]. rewrite gpio_levels_restart_timer. reflexivity.
  - (* no parity, two stop bits *)
    eapply tx_ticks_cons;
      [ rewrite handle_tx_stop_slot by (fields; unfold in_int; lia);
        fields; reflexivity |].
    eapply tx_ticks_cons;
      [ rewrite handle_tx_final_stop_slot by (fields; lia); reflexivity
      | reflexivity ].
  - rewrite !gpio_levels_app, gpio_levels_data_events.
    cbn [gpio_levels app]. rewrite gpio_levels_restart_timer. reflexivity.
  - (* parity, one stop bit *)
    eapply tx_ticks_cons;
      [ rewrite handle_tx_parity_slot by (fields; lia); fields; reflexivity |].
    eapply tx_ticks_cons;
      [ rewrite handle_tx_final_stop_slot by (fields; lia); reflexivity
      | reflexivity ].
  - rewrite !gpio_levels_app, gpio_levels_data_events.
    cbn [gpio_levels app]. rewrite gpio_levels_restart_timer. reflexivity.
  - (* parity, two stop bits *)
    eapply tx_ticks_cons;
      [ rewrite handle_tx_parity_slot by (fields; lia); fields; reflexivity |].
    eapply tx_ticks_cons;
      [ rewrite handle_tx_stop_slot by (fields; unfold in_int; lia);
        fields; reflexivity |].
    eapply tx_ticks_cons;
      [ rewrite handle_tx_final_stop_slot by (fields; lia); reflexivity
      | reflexivity ].
  - rewrite !gpio_levels_app, gpio_levels_data_events.
    cbn [gpio_levels app]. rewrite gpio_levels_restart_timer. reflexivity.
Qed.

(** ** Data bits and parity *)

Lemma tx_bit_div_mod (ch i : Z) : 0 <= i -> tx_bit ch i = (ch / 2 ^ i) mod 2.
Proof.
  intros Hi. unfold tx_bit. rewrite Z.land_comm, Z.shiftr_div_pow2 by assumption.
  change 1 with (Z.ones 1). now rewrite Z.land_ones by lia.
Qed.

Lemma tx_bit_is_bit (ch i : Z) : 0 <= i -> is_bit (tx_bit ch i).
Proof.
  intros Hi. rewrite tx_bit_div_mod by assumption. unfold is_bit.
  pose proof (Z.mod_pos_bound (ch / 2 ^ i) 2 ltac:(lia)). lia.
Qed.

Lemma data_bits_are_bits (ch : Z) : Forall is_bit (data_bits ch).
Proof.
  unfold data_bits. apply Forall_forall. intros x Hx.
  apply in_map_iff in Hx. destruct Hx as (i & <- & _).
  apply tx_bit_is_bit. lia.
Qed.

Lemma sample_bit_of_bit (v : Z) : is_bit v -> sample_bit v = v.
Proof. intros [-> | ->]; reflexivity. Qed.

Lemma map_sample_bit_bits (l : list Z) : Forall is_bit l -> map sample_bit l = l.
Proof.
  induction 1 as [| x l Hx _ IH]; [reflexivity |].
  cbn. now rewrite IH, sample_bit_of_bit.
Qed.

(** LSB-first assembly of [k] consecutive bits of [ch], from bit [i]. *)
Lemma assemble_bits_from (ch : Z) (k : nat) : forall i : nat,
  assemble_lsb_first (map (fun j => tx_bit ch (Z.of_nat j)) (seq i k)) =
    (ch / 2 ^ Z.of_nat i) mod 2 ^ Z.of_nat k.
Proof.
  induction k as [| k IH]; intros i.
  - cbn. now rewrite Z.mod_1_r.
  - cbn [seq map assemble_lsb_first]. rewrite IH.
    rewrite tx_bit_div_mod by lia.
    rewrite !Nat2Z.inj_succ, !Z.pow_succ_r by lia.
    rewrite (Z.mul_comm 2 (2 ^ Z.of_nat i)).
    rewrite <- Z.div_div by (try apply Z.pow_pos_nonneg; lia).
    set (x := ch / 2 ^ Z.of_nat i).
    rewrite (Z.rem_mul_r x 2 (2 ^ Z.of_nat k))
      by (try apply Z.pow_pos_nonneg; lia).
    reflexivity.
Qed.

Lemma assemble_data_bits (b : Z) :
  is_byte b -> assemble_lsb_first (data_bits b) = b.
Proof.
  intros Hb. unfold data_bits. rewrite assemble_bits_from.
  change (2 ^ Z.of_nat 0) with 1. rewrite Z.div_1_r.
  apply Z.mod_small. exact Hb.
Qed.

Lemma lxor_bits (a x : Z) :
  is_bit a -> is_bit x -> Z.lxor a x = (a + x) mod 2 /\ is_bit (Z.lxor a x).
Proof. intros [-> | ->] [-> | ->]; cbv; auto. Qed.

Lemma set_bits_cons (x : Z) (l : list Z) :
  is_bit x -> set_bits (x :: l) = x + set_bits l.
Proof.
  unfold set_bits. intros [-> | ->]; cbn [count_occ].
  - destruct (Z.eq_dec 0 1); [discriminate | lia].
  - destruct (Z.eq_dec 1 1); [| congruence]. lia.
Qed.

(** The accumulator after a run of bits: the seed plus the number of set
    bits, modulo 2. *)
Lemma fold_lxor_bits (l : list Z) : forall seed : Z,
  Forall is_bit l -> is_bit seed ->
  fold_left Z.lxor l seed = (seed + set_bits l) mod 2 /\
  is_bit (fold_left Z.lxor l seed).
Proof.
  induction l as [| x l IH]; intros seed Hl Hs.
  - cbn. split; [| assumption]. destruct Hs as [-> | ->]; reflexivity.
  - inversion Hl as [| ? ? Hx Hl']; subst.
    destruct (lxor_bits seed x Hs Hx) as [Hxor Hbit].
    cbn [fold_left]. destruct (IH (Z.lxor seed x) Hl' Hbit) as [IH1 IH2].
    split; [| assumption].
    rewrite IH1, Hxor, set_bits_cons by assumption.
    rewrite Z.add_mod_idemp_l by lia. f_equal. lia.
Qed.

(** Data bits plus parity bit: the number of set bits has the parity of
    the seed. *)
Lemma parity_bit_count (l : list Z) (seed : Z) :
  Forall is_bit l -> is_bit seed ->
  (set_bits l + fold_left Z.lxor l seed) mod 2 = seed.
Proof.
  intros Hl Hs. destruct (fold_lxor_bits l seed Hl Hs) as [-> _].
  rewrite Z.add_mod_idemp_r by lia.
  replace (set_bits l + (seed + set_bits l)) with (seed + set_bits l * 2) by lia.
  rewrite Z.mod_add by lia. destruct Hs as [-> | ->]; reflexivity.
Qed.

(** ** Whole received frames *)

Lemma final_slot_past_data (c : line_config) :
  frame_config c ->
  8 <= final_stop_bit_index c /\ final_stop_bit_index c <> parity_index c.
Proof.
  intros Hc.
  destruct (frame_config_cases _ Hc)
    as [(_ & Hp & [[_ Hf] | [_ Hf]]) | (_ & Hp & [[_ Hf] | [_ Hf]])];
    rewrite Hp, Hf; lia.
Qed.

Lemma rx_frame_run (u : uart) (v0 vf : Z) (d tail : list Z) :
  rx_bit_index (rx u) = -1 ->
  frame_config (config u) ->
  length d = 8%nat ->
  length tail = (frame_slots (config u) - 10)%nat ->
  rx_ticks ((v0 :: d ++ tail) ++ [vf]) u =
    (with_rx (with_rx_bit_index (-1) (rx_at_final_slot (config u) d tail)) u,
     repeat (HrtimerForward TimerRx) (length (v0 :: d ++ tail)) ++
     (if rx_parity_ok (rx_at_final_slot (config u) d tail)
         || truthy (ignore_parity_errors (config u))
      then receive_character (fold_left rx_shift_in d 0) u else [])).
Proof.
  intros Hi Hc Hd Ht.
  destruct (final_slot_past_data _ Hc) as [H8 Hne].
  rewrite rx_ticks_app, (rx_frame_before_final u v0 d tail Hi Hc Hd Ht).
  cbn [fst snd rx_ticks].
  rewrite handle_rx_final_stop_slot by (fields; auto).
  unfold rx_at_final_slot, with_rx_bit_index. fields.
  rewrite app_nil_r. reflexivity.
Qed.

Lemma delivered_forwards (t : hrtimer_id) (n : nat) :
  delivered (repeat (HrtimerForward t) n) = [].
Proof. induction n; [reflexivity | exact IHn]. Qed.

Lemma delivered_receive_character (c : Z) (u : uart) :
  sink_attached u -> delivered (receive_character c u) = [to_uchar c].
Proof.
  unfold sink_attached, receive_character.
  intros [Hcb | (tty & port & Htty & Hport)].
  - destruct (rx_callback u); [reflexivity | congruence].
  - destruct (rx_callback u); [reflexivity |]. now rewrite Htty, Hport.
Qed.

(** * The claims *)

(** C1 (framing round trip).  For every byte [b] and every configuration
    with one or two stop bits and parity none, even or odd: the levels
    [handle_tx] drives for [b], one per tick, are the start bit 0, the eight
    data bits LSB first, the parity bit if enabled, and the stop bits 1; fed
    to [handle_rx], one tick per level from the start state, they make the
    receiver deliver exactly one byte to the sink, equal to [b], with the
    parity check passed, and leave it waiting for the next start edge. *)
Theorem framing_round_trip (u : uart) (b : Z) (rest : list Z) :
  is_byte b ->
  frame_config (config u) ->
  tx_bit_index (tx u) = -1 ->
  q_items (queue_tx u) = b :: rest ->
  rx_bit_index (rx u) = -1 ->
  sink_attached u ->
  let line := gpio_levels (snd (tx_ticks (frame_slots (config u)) u)) in
  let u1 := fst (tx_ticks (frame_slots (config u)) u) in
  line = 0 :: data_bits b ++ parity_levels (config u) b
           ++ repeat 1 (Z.to_nat (stop_bits (config u))) /\
  delivered (snd (rx_ticks line u1)) = [b] /\
  rx_parity_ok (rx (fst (rx_ticks line u1))) = true /\
  rx_bit_index (rx (fst (rx_ticks line u1))) = -1.
Proof.
  intros Hb Hc Htx Hq Hrx Hsink line u1.
  destruct (tx_frame_run u b rest Htx Hq Hc) as (evs & Hrun & Hlevels).
  subst line u1. rewrite Hrun. cbn [fst snd]. rewrite Hlevels.
  split; [reflexivity |].
  set (u1 := with_tx _ _).
  assert (Hc1 : frame_config (config u1)) by exact Hc.
  assert (Hrx1 : rx_bit_index (rx u1) = -1) by exact Hrx.
  assert (Hsink1 : sink_attached u1) by exact Hsink.
  (* the line as start sample, data samples, tail and final stop sample *)
  assert (Hsplit : exists tail,
    parity_levels (config u) b ++ repeat 1 (Z.to_nat (stop_bits (config u)))
      = tail ++ [1] /\
    length tail = (frame_slots (config u1) - 10)%nat /\
    (truthy (parity_en (config u)) = true ->
     hd 0 tail = fold_left Z.lxor (data_bits b) (parity_init (config u)))).
  { unfold parity_levels, frame_slots. change (config u1) with (config u).
    destruct (frame_config_cases _ Hc)
      as [(Ep & _ & [[Hs _] | [Hs _]]) | (Ep & _ & [[Hs _] | [Hs _]])];
      rewrite Ep, Hs.
    - exists []. repeat split; try reflexivity; discriminate.
    - exists [1]. repeat split; try reflexivity; discriminate.
    - eexists [_]. repeat split; reflexivity.
    - eexists [_; 1]. repeat split; reflexivity. }
  destruct Hsplit as (tail & Htail & Hlen & Hhd).
  rewrite Htail.
  replace (0 :: data_bits b ++ tail ++ [1])
    with ((0 :: data_bits b ++ tail) ++ [1])
    by (cbn [app]; now rewrite <- app_assoc).
  rewrite (rx_frame_run u1 0 1 (data_bits b) tail Hrx1 Hc1 eq_refl Hlen).
  cbn [fst snd]. change (config u1) with (config u).
  assert (Hok : rx_parity_ok (rx_at_final_slot (config u) (data_bits b) tail)
                = true).
  { unfold rx_at_final_slot. cbn [rx_parity_ok].
    destruct (truthy (parity_en (config u))) eqn:Ep; [| reflexivity].
    rewrite (Hhd eq_refl). apply Z.eqb_refl. }
  rewrite Hok. cbn [orb].
  rewrite delivered_app, delivered_forwards, delivered_receive_character
    by assumption.
  rewrite rx_register_after_data by reflexivity.
  rewrite map_sample_bit_bits by apply data_bits_are_bits.
  rewrite assemble_data_bits by assumption.
  unfold to_uchar. rewrite Z.mod_small by exact Hb.
  repeat split; [exact Hok].
Qed.

Lemma set_parity_enabled_config (en odd ign : Z) (u0 : uart) :
  en <> 0 ->
  config (fst (raspberry_soft_uart_set_parity en odd ign u0)) =
    mkConfig (stop_bits (config u0)) en ign (if truthy odd then 1 else 0)
             (int_add 8 (stop_bits (config u0))) 8.
Proof.
  intros Hen. cbn. unfold config_set_parity, recalc_indices. cbn.
  now rewrite (truthy_true en Hen).
Qed.

Lemma even_of_mod2 (n seed : Z) (odd : bool) :
  seed = (if odd then 1 else 0) -> n mod 2 = seed -> Z.even n = negb odd.
Proof.
  intros -> H. rewrite Zmod_even in H.
  destruct (Z.even n), odd; cbn in *; congruence.
Qed.

(** C2 (transmit parity).  With parity enabled by
    [raspberry_soft_uart_set_parity], the start tick of [handle_tx] seeds the
    accumulator with 1 for odd parity and 0 for even parity; the level driven
    in the parity slot is that seed with the eight data bits XORed into it;
    it is a bit, and the number of set bits among the data bits and the
    parity bit is even under even parity and odd under odd parity.  For
    0x00 and 0xFF the parity bit equals the seed (0 even, 1 odd); for 0x01 it
    is its complement (1 even, 0 odd). *)
Theorem tx_parity_bit (u0 : uart) (b : Z) (rest : list Z) (en odd ign : Z) :
  is_byte b ->
  en <> 0 ->
  stop_bits (config u0) = 1 \/ stop_bits (config u0) = 2 ->
  tx_bit_index (tx u0) = -1 ->
  q_items (queue_tx u0) = b :: rest ->
  let u := fst (raspberry_soft_uart_set_parity en odd ign u0) in
  let seed := if truthy odd then 1 else 0 in
  let p := fold_left Z.lxor (data_bits b) seed in
  tx_parity (tx (fst (fst (handle_tx u)))) = seed /\
  gpio_levels (snd (tx_ticks (frame_slots (config u)) u)) =
    0 :: data_bits b ++ [p] ++ repeat 1 (Z.to_nat (stop_bits (config u0))) /\
  is_bit p /\
  Z.even (set_bits (data_bits b) + p) = negb (truthy odd) /\
  (b = 0x00 -> p = seed) /\
  (b = 0xFF -> p = seed) /\
  (b = 0x01 -> p = 1 - seed).
Proof.
  intros Hb Hen Hs Htx Hq u seed p.
  pose proof (set_parity_enabled_config en odd ign u0 Hen) as Hcfg.
  fold u in Hcfg.
  assert (Hseed : is_bit seed) by (subst seed; unfold is_bit; destruct (truthy odd); auto).
  assert (Hc : frame_config (config u)).
  { rewrite Hcfg. split; [| exact Hs]. split; cbn; now rewrite (truthy_true en Hen). }
  assert (Htx' : tx_bit_index (tx u) = -1) by exact Htx.
  assert (Hq' : q_items (queue_tx u) = b :: rest) by exact Hq.
  split; [| split; [| split; [| split]]].
  - rewrite (handle_tx_start_slot u b rest Htx' Hq'). cbn [fst tx with_tx tx_parity].
    now rewrite Hcfg.
  - destruct (tx_frame_run u b rest Htx' Hq' Hc) as (evs & Hrun & Hlevels).
    rewrite Hrun. cbn [snd]. rewrite Hlevels.
    unfold parity_levels. rewrite Hcfg. cbn [parity_en parity_init stop_bits].
    now rewrite (truthy_true en Hen).
  - apply fold_lxor_bits; [apply data_bits_are_bits | exact Hseed].
  - apply (even_of_mod2 _ seed); [reflexivity |].
    apply parity_bit_count; [apply data_bits_are_bits | exact Hseed].
  - subst p seed. repeat split; intros ->; destruct (truthy odd); reflexivity.
Qed.

Lemma receive_character_no_forward (c : Z) (u : uart) (t : hrtimer_id) :
  ~ In (HrtimerForward t) (receive_character c u).
Proof.
  unfold receive_character.
  destruct (rx_callback u); [cbn; intuition discriminate |].
  destruct (current_tty u) as [tty |]; [| cbn; tauto].
  destruct (tty_port tty); cbn; intuition discriminate.
Qed.

(** C3 (final stop slot).  In a received frame (start tick, eight data
    ticks over [d], then the parity and extra stop ticks over [tail]) the
    receiver reaches the final stop slot with the parity-ok flag telling
    whether the parity sample matched the accumulator (always true without
    parity).  The tick at that slot delivers the assembled byte to the sink
    if and only if the flag is true, or parity is disabled, or
    ignore-parity-errors is set; otherwise it produces no event at all.  In
    every case the cursor goes back to -1 and the callback returns
    [HRTIMER_NORESTART] without forwarding the timer. *)
Theorem final_stop_slot_delivery (u : uart) (v0 vf : Z) (d tail : list Z) :
  rx_bit_index (rx u) = -1 ->
  frame_config (config u) ->
  length d = 8%nat ->
  length tail = (frame_slots (config u) - 10)%nat ->
  sink_attached u ->
  let u1 := fst (rx_ticks (v0 :: d ++ tail) u) in
  let u2 := fst (fst (handle_rx vf u1)) in
  let evs := snd (fst (handle_rx vf u1)) in
  let result := snd (handle_rx vf u1) in
  let deliver := rx_parity_ok (rx u1) = true \/
                 parity_en (config u1) = 0 \/
                 ignore_parity_errors (config u1) <> 0 in
  rx_bit_index (rx u1) = final_stop_bit_index (config u1) /\
  rx_parity_ok (rx u1) =
    (if truthy (parity_en (config u))
     then hd 0 tail =? fold_left Z.lxor d (parity_init (config u))
     else true) /\
  (delivered evs = [to_uchar (rx_character (rx u1))] <-> deliver) /\
  (deliver -> evs = receive_character (rx_character (rx u1)) u1) /\
  (~ deliver -> evs = []) /\
  rx_bit_index (rx u2) = -1 /\
  result = HRTIMER_NORESTART /\
  ~ In (HrtimerForward TimerRx) evs.
Proof.
  intros Hi Hc Hd Ht Hsink u1 u2 evs result deliver.
  destruct (final_slot_past_data _ Hc) as [H8 Hne].
  pose proof (rx_frame_before_final u v0 d tail Hi Hc Hd Ht) as Hrun.
  assert (Hu1 : u1 = with_rx (rx_at_final_slot (config u) d tail) u)
    by (subst u1; now rewrite Hrun).
  assert (Hstep : handle_rx vf u1 =
    (with_rx (with_rx_bit_index (-1) (rx u1)) u1,
     (if rx_parity_ok (rx u1) || truthy (ignore_parity_errors (config u1))
      then receive_character (rx_character (rx u1)) u1 else []),
     HRTIMER_NORESTART)).
  { rewrite handle_rx_final_stop_slot; [reflexivity | | |];
      rewrite Hu1; fields; auto. }
  assert (Hsink1 : sink_attached u1) by (rewrite Hu1; exact Hsink).
  assert (Hdec : rx_parity_ok (rx u1) || truthy (ignore_parity_errors (config u1))
                 = true <-> deliver).
  { subst deliver. rewrite orb_true_iff. split.
    - intros [H | H]; [now left | right; right].
      unfold truthy in H. intros E. rewrite E in H. discriminate.
    - intros [H | [H | H]]; [now left | left | right; now apply truthy_true].
      rewrite Hu1 in *. cbn in *. unfold truthy. now rewrite H. }
  subst u2 evs result. rewrite Hstep. cbn [fst snd].
  split; [rewrite Hu1; reflexivity |].
  split; [rewrite Hu1; reflexivity |].
  destruct (rx_parity_ok (rx u1) || truthy (ignore_parity_errors (config u1))).
  - assert (Hyes : deliver) by now apply Hdec.
    split; [split; [intros _; exact Hyes |
                    intros _; now apply delivered_receive_character] |].
    split; [reflexivity |].
    split; [intros Hno; contradiction |].
    split; [reflexivity |]. split; [reflexivity |].
    apply receive_character_no_forward.
  - assert (Hno : ~ deliver) by (intros H; apply Hdec in H; discriminate).
    split; [split; [discriminate | intros H; contradiction] |].
    split; [intros H; contradiction |].
    split; [reflexivity |].
    split; [reflexivity |]. split; [reflexivity |].
    intros [].
Qed.

(** C9 (byte assembly).  Writing each sample into bit 8 of the register
    and shifting right by one, eight times from a cleared register, leaves
    in the register the LSB-first value of the samples: the sum of
    sample_i * 2^i.  That value fits in eight bits, the later ticks of the
    frame do not touch the register, and the byte the final stop slot hands
    to the sink, when it hands one, is exactly that value. *)
Theorem rx_assembly_is_lsb_first (u : uart) (v0 vf : Z) (d tail : list Z) :
  rx_bit_index (rx u) = -1 ->
  frame_config (config u) ->
  length d = 8%nat ->
  length tail = (frame_slots (config u) - 10)%nat ->
  sink_attached u ->
  let u8 := fst (rx_ticks (v0 :: d) u) in
  let u1 := fst (rx_ticks (v0 :: d ++ tail) u) in
  let evs := snd (fst (handle_rx vf u1)) in
  let value := assemble_lsb_first (map sample_bit d) in
  rx_character (rx u8) = fold_left rx_shift_in d 0 /\
  rx_character (rx u8) = value /\
  is_byte value /\
  Z.land (rx_character (rx u8)) 0xff = value /\
  rx_character (rx u1) = rx_character (rx u8) /\
  delivered evs =
    (if rx_parity_ok (rx u1) || truthy (ignore_parity_errors (config u1))
     then [value] else []).
Proof.
  intros Hi Hc Hd Ht Hsink u8 u1 evs value.
  destruct (final_slot_past_data _ Hc) as [H8 Hne].
  pose proof (assembled_is_byte d Hd) as Hbyte. fold value in Hbyte.
  assert (Hu8 : rx_character (rx u8) = fold_left rx_shift_in d 0).
  { subst u8. cbn [rx_ticks]. rewrite handle_rx_start_slot by assumption.
    rewrite rx_ticks_data by (fields; rewrite ?Hd; change (Z.of_nat 8) with 8; lia).
    reflexivity. }
  assert (Hu1 : u1 = with_rx (rx_at_final_slot (config u) d tail) u).
  { subst u1. now rewrite (rx_frame_before_final u v0 d tail Hi Hc Hd Ht). }
  assert (Hval : fold_left rx_shift_in d 0 = value)
    by now apply rx_register_after_data.
  split; [exact Hu8 |]. rewrite Hu8, Hval.
  split; [reflexivity |]. split; [exact Hbyte |].
  split.
  { change 0xff with (Z.ones 8). rewrite Z.land_ones by lia.
    apply Z.mod_small. exact Hbyte. }
  split; [rewrite Hu1; exact Hval |].
  subst evs. rewrite handle_rx_final_stop_slot by (rewrite Hu1; fields; auto).
  cbn [fst snd].
  destruct (rx_parity_ok (rx u1) || truthy (ignore_parity_errors (config u1)));
    [| reflexivity].
  rewrite delivered_receive_character by (rewrite Hu1; exact Hsink).
  rewrite Hu1. fields. unfold rx_at_final_slot. fields.
  rewrite Hval. unfold to_uchar. now rewrite Z.mod_small by exact Hbyte.
Qed.

(** ** Start edges *)

(** Every tick before the final stop slot advances the cursor by one. *)
Lemma handle_rx_advances (v : Z) (u : uart) :
  frame_config (config u) ->
  -1 <= rx_bit_index (rx u) < final_stop_bit_index (config u) ->
  rx_bit_index (rx (fst (fst (handle_rx v u)))) = rx_bit_index (rx u) + 1 /\
  config (fst (fst (handle_rx v u))) = config u.
Proof.
  intros Hc Hi.
  assert (Hr : in_int (final_stop_bit_index (config u))).
  { destruct Hc as [[_ Hf] _]. rewrite Hf. apply int_add_in_int. }
  destruct (Z.eq_dec (rx_bit_index (rx u)) (-1)) as [E | E].
  { rewrite handle_rx_start_slot by assumption. rewrite E. split; reflexivity. }
  destruct (Z_lt_le_dec (rx_bit_index (rx u)) 8) as [Hlt | Hge].
  { rewrite handle_rx_data_slot by lia. split; reflexivity. }
  destruct (Z.eq_dec (rx_bit_index (rx u)) (parity_index (config u))) as [Ep | Ep].
  - assert (Hp8 : parity_index (config u) = 8).
    { destruct (frame_config_cases _ Hc) as [(_ & Hp & _) | (_ & Hp & _)]; lia. }
    rewrite handle_rx_parity_slot by lia. fields.
    split; [lia | reflexivity].
  - rewrite handle_rx_extra_stop_slot by (assumption || lia).
    split; reflexivity.
Qed.

Lemma rx_cursor_progress (samples : list Z) : forall u : uart,
  frame_config (config u) ->
  -1 <= rx_bit_index (rx u) ->
  rx_bit_index (rx u) + Z.of_nat (length samples)
    <= final_stop_bit_index (config u) ->
  rx_bit_index (rx (fst (rx_ticks samples u))) =
    rx_bit_index (rx u) + Z.of_nat (length samples).
Proof.
  induction samples as [| v l IH]; intros u Hc Hlo Hhi.
  - cbn. lia.
  - cbn [length] in Hhi. rewrite Nat2Z.inj_succ in Hhi.
    destruct (handle_rx_advances v u Hc ltac:(lia)) as [Hidx Hcfg].
    cbn [rx_ticks length]. rewrite Nat2Z.inj_succ.
    destruct (handle_rx v u) as [[u1 e1] r1]. cbn [fst] in Hidx, Hcfg.
    specialize (IH u1). rewrite Hcfg, Hidx in IH.
    destruct (rx_ticks l u1) as [u2 e2]. cbn [fst] in *.
    rewrite IH by (assumption || lia). lia.
Qed.

Lemma final_slot_of_frame_slots (c : line_config) :
  frame_config c -> final_stop_bit_index c = Z.of_nat (frame_slots c) - 2.
Proof.
  intros Hc. unfold frame_slots.
  destruct (frame_config_cases _ Hc)
    as [(Ep & _ & [[Hs Hf] | [Hs Hf]]) | (Ep & _ & [[Hs Hf] | [Hs Hf]])];
    rewrite Ep, Hs, Hf; reflexivity.
Qed.

(** C5 (start-edge debounce), as the code has it.  Whenever the cursor is
    not -1 the edge handler returns the state unchanged and calls nothing: it
    neither arms nor restarts the receive clock.  Consequently, once the
    first receive tick of a frame has run, every edge until the final stop
    slot has been processed is a no-op. *)
Theorem edge_ignored_in_frame :
  (forall u : uart,
     rx_bit_index (rx u) <> -1 -> handle_rx_start u = (u, [])) /\
  (forall (u : uart) (samples : list Z),
     rx_bit_index (rx u) = -1 ->
     frame_config (config u) ->
     (1 <= length samples < frame_slots (config u))%nat ->
     let u' := fst (rx_ticks samples u) in
     rx_bit_index (rx u') = Z.of_nat (length samples) - 1 /\
     handle_rx_start u' = (u', [])).
Proof.
  assert (Hnoop : forall u : uart,
            rx_bit_index (rx u) <> -1 -> handle_rx_start u = (u, [])).
  { intros u H. unfold handle_rx_start. apply Z.eqb_neq in H. now rewrite H. }
  split; [exact Hnoop |].
  intros u samples Hi Hc Hlen u'.
  assert (Hcur : rx_bit_index (rx u') = Z.of_nat (length samples) - 1).
  { subst u'. rewrite rx_cursor_progress; try assumption; try lia.
    rewrite (final_slot_of_frame_slots _ Hc). lia. }
  split; [exact Hcur |]. apply Hnoop. lia.
Qed.

(** C5, second reading ("after the edge handler has armed the clock,
    every further edge is a no-op"): it fails on the code.  Between the edge
    that arms the clock and the first tick the cursor is still -1, and a
    further edge calls [hrtimer_start] again. *)
Lemma edge_after_arming_restarts_clock :
  let u1 := fst (handle_rx_start example_uart) in
  snd (handle_rx_start example_uart) = [HrtimerStart TimerRx HalfPeriod] /\
  timer_rx_active u1 = true /\
  rx_bit_index (rx u1) = -1 /\
  handle_rx_start u1 = (u1, [HrtimerStart TimerRx HalfPeriod]) /\
  handle_rx_start u1 <> (u1, []).
Proof.
  cbv zeta. repeat split; try reflexivity.
  intros H. apply (f_equal snd) in H. discriminate H.
Qed.

(** ** Transmit clock *)

Lemma send_string_arms (u : uart) (string : list Z) (string_size : Z) :
  timer_tx_active u = false ->
  snd (fst (raspberry_soft_uart_send_string string string_size u)) =
    [HrtimerStart TimerTx Period] /\
  timer_tx_active (fst (fst (raspberry_soft_uart_send_string string string_size u)))
    = true.
Proof.
  intros H. unfold raspberry_soft_uart_send_string.
  destruct (enqueue_string (queue_tx u) string string_size) as [q result].
  cbn [with_queue timer_tx_active]. rewrite H. cbn. split; reflexivity.
Qed.

(** C6 (idle disarm).  The tick that sends the final stop bit with the
    queue empty, and a tick in the idle state with the queue empty, both
    return [HRTIMER_NORESTART] without forwarding the timer, so the transmit
    timer is inactive afterwards; [raspberry_soft_uart_send_string] starts it
    again whenever it is not active, and leaves it alone when it is. *)
Theorem tx_idle_disarm :
  (forall u : uart,
     frame_config (config u) ->
     tx_bit_index (tx u) = final_stop_bit_index (config u) ->
     q_items (queue_tx u) = [] ->
     handle_tx u =
       (with_tx (mkTx 0 (-1) 0) u, [GpioSetValue 1], HRTIMER_NORESTART) /\
     timer_tx_active (fst (timer_tx_expires u)) = false) /\
  (forall u : uart,
     tx_bit_index (tx u) = -1 ->
     q_items (queue_tx u) = [] ->
     handle_tx u = (u, [], HRTIMER_NORESTART) /\
     fst (timer_tx_expires u) = with_timer_tx false u) /\
  (forall (u : uart) (string : list Z) (string_size : Z),
     let r := raspberry_soft_uart_send_string string string_size u in
     (timer_tx_active u = false ->
      snd (fst r) = [HrtimerStart TimerTx Period] /\
      timer_tx_active (fst (fst r)) = true) /\
     (timer_tx_active u = true ->
      snd (fst r) = [] /\ timer_tx_active (fst (fst r)) = true)).
Proof.
  split; [| split].
  - intros u Hc Hi Hq.
    destruct (final_slot_past_data _ Hc) as [H8 Hne].
    assert (Hstep : handle_tx u =
              (with_tx (mkTx 0 (-1) 0) u, [GpioSetValue 1], HRTIMER_NORESTART)).
    { rewrite handle_tx_final_stop_slot by (rewrite ?Hi; auto).
      unfold get_queue_size. rewrite Hq. reflexivity. }
    split; [exact Hstep |]. unfold timer_tx_expires. now rewrite Hstep.
  - intros u Hi Hq.
    pose proof (handle_tx_idle_empty u Hi Hq) as Hstep.
    split; [exact Hstep |]. unfold timer_tx_expires. now rewrite Hstep.
  - intros u string string_size r. split.
    + intros H. subst r. now apply send_string_arms.
    + intros H. subst r. unfold raspberry_soft_uart_send_string.
      destruct (enqueue_string (queue_tx u) string string_size) as [q result].
      cbn [with_queue timer_tx_active]. rewrite H. cbn. split; [reflexivity | exact H].
Qed.

(** C10 (unconditional arming).  Whatever the input and the queue, and
    whether or not a session is open, [raspberry_soft_uart_send_string] starts
    the transmit timer when it is not active; in particular it does so when
    it accepts nothing (full queue, empty string or non-positive size) and
    returns 0. *)
Theorem send_string_arms_unconditionally
  (u : uart) (string : list Z) (string_size : Z) :
  timer_tx_active u = false ->
  let r := raspberry_soft_uart_send_string string string_size u in
  snd (fst r) = [HrtimerStart TimerTx Period] /\
  timer_tx_active (fst (fst r)) = true /\
  current_tty (fst (fst r)) = current_tty u /\
  (raspberry_soft_uart_get_tx_queue_room u = 0 \/ string = [] \/ string_size <= 0 ->
   snd r = 0).
Proof.
  intros H r.
  destruct (send_string_arms u string string_size H) as [He Ha].
  split; [exact He |]. split; [exact Ha |].
  subst r. unfold raspberry_soft_uart_send_string, enqueue_string,
    raspberry_soft_uart_get_tx_queue_room, get_queue_room.
  cbn [with_queue timer_tx_active]. rewrite H. cbn [negb fst snd].
  split; [reflexivity |].
  intros [Hroom | [-> | Hsize]].
  - assert (E : (q_capacity (queue_tx u) - length (q_items (queue_tx u)) = 0)%nat)
      by lia.
    rewrite E. reflexivity.
  - rewrite firstn_nil. now rewrite firstn_nil.
  - replace (Z.to_nat string_size) with 0%nat by lia.
    cbn [firstn]. now rewrite firstn_nil.
Qed.

(** ** Setters *)

Lemma run_setters_layout (calls : list setter_call) : forall u : uart,
  layout_consistent (config u) ->
  layout_consistent (config (run_setters calls u)).
Proof.
  induction calls as [| call calls IH]; intros u Hu; [exact Hu |].
  cbn. apply IH. apply run_setter_layout.
Qed.

Lemma stop_bits_set_stop_bits (n : Z) (c : line_config) :
  stop_bits (config_set_stop_bits n c) = n.
Proof.
  unfold config_set_stop_bits.
  now destruct (recalc_indices_flags
                  (mkConfig n (parity_en c) (ignore_parity_errors c)
                     (parity_init c) (final_stop_bit_index c) (parity_index c)))
    as (-> & _).
Qed.

Lemma stop_bits_set_parity (en odd ign : Z) (c : line_config) :
  stop_bits (config_set_parity en odd ign c) = stop_bits c.
Proof.
  unfold config_set_parity.
  now destruct (recalc_indices_flags
                  (mkConfig (stop_bits c) en ign (if truthy odd then 1 else 0)
                     (final_stop_bit_index c) (parity_index c)))
    as (-> & _).
Qed.

(** What the two setters produce, called in either order with one or
    two stop bits, is a frame configuration. *)
Lemma setters_frame_config (u : uart) (n en odd ign : Z) :
  n = 1 \/ n = 2 ->
  frame_config (config (run_setters [SetStopBits n; SetParity en odd ign] u)) /\
  frame_config (config (run_setters [SetParity en odd ign; SetStopBits n] u)).
Proof.
  intros Hn. split; (split; [apply run_setter_layout |]); cbn.
  - now rewrite stop_bits_set_parity, stop_bits_set_stop_bits.
  - now rewrite stop_bits_set_stop_bits.
Qed.

(** C7 (layout invariant).  After every sequence of calls of the stop-bit
    and parity setters from the initial state, and after any single setter
    call from any state, the derived layout agrees with the stored flags:
    the parity slot is 8 when parity is enabled and -1 when it is not, and
    the final stop slot is 8 + stop_bits when parity is enabled and
    7 + stop_bits when it is not (sums of C [int]s, which are the exact
    sums whenever these fit in an [int], as they do for one or two stop
    bits). *)
Theorem setters_keep_layout_consistent :
  (forall (cap : nat) (calls : list setter_call),
     layout_consistent (config (run_setters calls (uart_init cap)))) /\
  (forall (u : uart) (call : setter_call),
     layout_consistent (config (run_setter call u))) /\
  (forall (u : uart) (n : Z),
     stop_bits (config (run_setter (SetStopBits n) u)) = n /\
     parity_en (config (run_setter (SetStopBits n) u)) = parity_en (config u)) /\
  (forall (u : uart) (en odd ign : Z),
     parity_en (config (run_setter (SetParity en odd ign) u)) = en /\
     stop_bits (config (run_setter (SetParity en odd ign) u))
       = stop_bits (config u)) /\
  (forall c : line_config,
     layout_consistent c ->
     in_int (7 + stop_bits c) -> in_int (8 + stop_bits c) ->
     parity_index c = (if truthy (parity_en c) then 8 else -1) /\
     final_stop_bit_index c =
       (if truthy (parity_en c) then 8 + stop_bits c else 7 + stop_bits c)).
Proof.
  split; [| split; [| split; [| split]]].
  - intros cap calls. apply run_setters_layout.
    split; reflexivity.
  - intros u call. apply run_setter_layout.
  - intros u n. cbn. unfold config_set_stop_bits.
    destruct (recalc_indices_flags
                (mkConfig n (parity_en (config u)) (ignore_parity_errors (config u))
                   (parity_init (config u)) (final_stop_bit_index (config u))
                   (parity_index (config u)))) as (H1 & H2 & _).
    split; assumption.
  - intros u en odd ign. cbn. unfold config_set_parity.
    destruct (recalc_indices_flags
                (mkConfig (stop_bits (config u)) en ign
                   (if truthy odd then 1 else 0)
                   (final_stop_bit_index (config u))
                   (parity_index (config u)))) as (H1 & H2 & _).
    split; assumption.
  - intros c [Hp Hf] H7 H8. split; [exact Hp |]. rewrite Hf.
    destruct (truthy (parity_en c)); now apply int_add_exact.
Qed.

(** ** Session life cycle *)

Lemma open_while_open (tty t : tty_struct) (u : uart) :
  current_tty u = Some t ->
  raspberry_soft_uart_open tty u =
    (with_rx (with_rx_bit_index (-1) (rx u)) u, [], 0).
Proof.
  intros H. unfold raspberry_soft_uart_open. cbn [current_tty with_rx].
  now rewrite H.
Qed.

(** C4 (session exclusivity), at the failing input.  A second [open]
    while the first session is four ticks into a received frame returns 0
    and keeps the tty and the transmit queue, but it has already reset the
    receive cursor from 3 to -1. *)
Theorem second_open_resets_rx_cursor :
  let r := raspberry_soft_uart_open other_tty mid_frame_uart in
  current_tty mid_frame_uart = Some example_tty /\
  rx_bit_index (rx mid_frame_uart) = 3 /\
  snd r = 0 /\
  snd (fst r) = [] /\
  current_tty (fst (fst r)) = Some example_tty /\
  queue_tx (fst (fst r)) = queue_tx mid_frame_uart /\
  rx_bit_index (rx (fst (fst r))) = -1 /\
  rx (fst (fst r)) <> rx mid_frame_uart.
Proof.
  cbv zeta. rewrite (open_while_open other_tty example_tty) by reflexivity.
  repeat split. intros H. apply (f_equal rx_bit_index) in H. discriminate H.
Qed.

(** ** Transmit queue *)

Lemma dequeue_n_spec (n : nat) : forall q : queue,
  dequeue_n n q =
    (mkQueue (skipn n (q_items q)) (q_capacity q), firstn n (q_items q)).
Proof.
  induction n as [| n IH]; intros [items cap]; [reflexivity |].
  cbn [dequeue_n]. unfold dequeue_character. cbn [q_items q_capacity].
  destruct items as [| c items]; [reflexivity |].
  rewrite IH. reflexivity.
Qed.

Lemma room_plus_size (q : queue) :
  queue_wf q -> get_queue_room q + get_queue_size q = Z.of_nat (q_capacity q).
Proof. unfold queue_wf, get_queue_room, get_queue_size. lia. Qed.

(** C8 (queue FIFO and capacity).  [raspberry_soft_uart_send_string]
    appends to the queue the leading bytes of the input that fit in the
    remaining room, in order and after the bytes already queued, and returns
    their number: the smaller of the room and the input length, 0 when the
    queue is full.  Dequeuing afterwards yields the queued bytes oldest
    first, and room + size equals the capacity before the call, after it,
    and after any number of dequeues; a cleared queue has the whole
    capacity as room. *)
Theorem send_string_queue (u : uart) (string : list Z) :
  queue_wf (queue_tx u) ->
  let room := raspberry_soft_uart_get_tx_queue_room u in
  let r := raspberry_soft_uart_send_string string (Z.of_nat (length string)) u in
  let u' := fst (fst r) in
  let count := snd r in
  count = Z.min room (Z.of_nat (length string)) /\
  q_items (queue_tx u') =
    q_items (queue_tx u) ++ firstn (Z.to_nat count) string /\
  q_capacity (queue_tx u') = q_capacity (queue_tx u) /\
  (room = 0 -> count = 0 /\ queue_tx u' = queue_tx u) /\
  get_queue_room (initialize_queue (queue_tx u))
    = Z.of_nat (q_capacity (queue_tx u)) /\
  room + raspberry_soft_uart_get_tx_queue_size u
    = Z.of_nat (q_capacity (queue_tx u)) /\
  raspberry_soft_uart_get_tx_queue_room u'
    + raspberry_soft_uart_get_tx_queue_size u'
    = Z.of_nat (q_capacity (queue_tx u)) /\
  (forall n : nat,
     snd (dequeue_n n (queue_tx u')) = firstn n (q_items (queue_tx u')) /\
     q_items (fst (dequeue_n n (queue_tx u'))) = skipn n (q_items (queue_tx u')) /\
     get_queue_room (fst (dequeue_n n (queue_tx u')))
       + get_queue_size (fst (dequeue_n n (queue_tx u')))
       = Z.of_nat (q_capacity (queue_tx u))).
Proof.
  intros Hwf room r u' count.
  assert (Hr : r =
    (let q := mkQueue (q_items (queue_tx u) ++
                         firstn (q_capacity (queue_tx u)
                                 - length (q_items (queue_tx u))) string)
                      (q_capacity (queue_tx u)) in
     (if negb (timer_tx_active u)
      then (with_timer_tx true (with_queue q u), [HrtimerStart TimerTx Period])
      else (with_queue q u, []),
      Z.of_nat (length (firstn (q_capacity (queue_tx u)
                                - length (q_items (queue_tx u))) string))))).
  { subst r. unfold raspberry_soft_uart_send_string, enqueue_string.
    rewrite Nat2Z.id, firstn_all. cbn [with_queue timer_tx_active].
    destruct (negb (timer_tx_active u)); reflexivity. }
  set (k := (q_capacity (queue_tx u) - length (q_items (queue_tx u)))%nat) in *.
  assert (Hq : queue_tx u' = mkQueue (q_items (queue_tx u) ++ firstn k string)
                                     (q_capacity (queue_tx u))).
  { subst u'. rewrite Hr. cbv zeta. destruct (negb (timer_tx_active u)); reflexivity. }
  assert (Hcount : count = Z.of_nat (length (firstn k string)))
    by (subst count; rewrite Hr; reflexivity).
  assert (Hroom : room = Z.of_nat k) by reflexivity.
  rewrite length_firstn in Hcount.
  assert (Hk : Z.to_nat count = Nat.min k (length string)) by lia.
  assert (Hfirst : firstn (Z.to_nat count) string = firstn k string).
  { rewrite Hk. destruct (Nat.le_ge_cases k (length string)) as [Hle | Hge].
    - now rewrite Nat.min_l.
    - rewrite Nat.min_r by assumption.
      now rewrite firstn_all, firstn_all2. }
  assert (Hwf' : queue_wf (queue_tx u')).
  { unfold queue_wf in *. rewrite Hq. cbn [q_items q_capacity].
    rewrite length_app, length_firstn. lia. }
  assert (Hcap : q_capacity (queue_tx u') = q_capacity (queue_tx u))
    by (rewrite Hq; reflexivity).
  split; [lia |]. split; [rewrite Hq, Hfirst; reflexivity |].
  split; [exact Hcap |].
  split.
  { intros H0. assert (k = 0%nat) by lia. split; [lia |].
    rewrite Hq. replace k with 0%nat by lia. cbn [firstn].
    rewrite app_nil_r. now destruct (queue_tx u). }
  split; [unfold get_queue_room; cbn; lia |].
  split; [now apply room_plus_size |].
  split.
  { unfold raspberry_soft_uart_get_tx_queue_room,
      raspberry_soft_uart_get_tx_queue_size.
    rewrite <- Hcap. now apply room_plus_size. }
  intros n. rewrite dequeue_n_spec. cbn [fst snd q_items].
  split; [reflexivity |]. split; [reflexivity |].
  rewrite <- Hcap.
  apply (room_plus_size (mkQueue (skipn n (q_items (queue_tx u')))
                                 (q_capacity (queue_tx u')))).
  unfold queue_wf in *. cbn [q_items q_capacity]. rewrite length_skipn. lia.
Qed.

(** * The theorems at concrete inputs *)

Lemma example_frame_config : frame_config (config example_uart).
Proof. split; [split; reflexivity | right; reflexivity]. Qed.

Lemma example_sink_attached : sink_attached example_uart.
Proof. right. exists example_tty, 10. split; reflexivity. Qed.

(** 0x53 sent with odd parity and two stop bits, then received. *)
Lemma framing_round_trip_witness :
  let u := example_uart in
  let line := gpio_levels (snd (tx_ticks (frame_slots (config u)) u)) in
  line = [0; 1; 1; 0; 0; 1; 0; 1; 0; 1; 1; 1] /\
  delivered (snd (rx_ticks line (fst (tx_ticks (frame_slots (config u)) u))))
    = [0x53].
Proof.
  destruct (framing_round_trip example_uart 0x53 [0xA1]) as (H1 & H2 & _).
  - unfold is_byte. lia.
  - exact example_frame_config.
  - reflexivity.
  - reflexivity.
  - reflexivity.
  - exact example_sink_attached.
  - split; [exact H1 | exact H2].
Defined.

(** 0x53 has four set bits: under even parity the parity bit is 0. *)
Lemma tx_parity_bit_witness :
  let u := fst (raspberry_soft_uart_set_parity 1 0 0 example_uart) in
  gpio_levels (snd (tx_ticks (frame_slots (config u)) u))
    = [0; 1; 1; 0; 0; 1; 0; 1; 0; 0; 1; 1] /\
  Z.even (set_bits (data_bits 0x53) + 0) = true.
Proof.
  destruct (tx_parity_bit example_uart 0x53 [0xA1] 1 0 0)
    as (_ & H2 & _ & H4 & _).
  - unfold is_byte. lia.
  - discriminate.
  - right. reflexivity.
  - reflexivity.
  - reflexivity.
  - split; [exact H2 | exact H4].
Defined.

(** A frame whose parity sample (0) contradicts the data of 0x53 under
    odd parity is dropped without any event. *)
Lemma final_stop_slot_delivery_witness :
  let u1 := fst (rx_ticks (0 :: [1; 1; 0; 0; 1; 0; 1; 0] ++ [0; 1]) example_uart) in
  rx_parity_ok (rx u1) = false /\
  snd (fst (handle_rx 1 u1)) = [] /\
  rx_bit_index (rx (fst (fst (handle_rx 1 u1)))) = -1.
Proof.
  destruct (final_stop_slot_delivery example_uart 0 1
              [1; 1; 0; 0; 1; 0; 1; 0] [0; 1])
    as (_ & H2 & _ & _ & H5 & H6 & _).
  - reflexivity.
  - exact example_frame_config.
  - reflexivity.
  - reflexivity.
  - exact example_sink_attached.
  - split; [exact H2 |]. split; [| exact H6].
    apply H5. rewrite H2.
    intros [H | [H | H]]; vm_compute in H;
      [discriminate H | discriminate H | apply H; reflexivity].
Defined.

(** The samples 1,1,0,0,1,0,1,0 assemble to 0x53, which is delivered when
    the parity sample is right. *)
Lemma rx_assembly_is_lsb_first_witness :
  let d := [1; 1; 0; 0; 1; 0; 1; 0] in
  let u1 := fst (rx_ticks (0 :: d ++ [1; 1]) example_uart) in
  rx_character (rx (fst (rx_ticks (0 :: d) example_uart))) = 0x53 /\
  delivered (snd (fst (handle_rx 1 u1))) = [0x53].
Proof.
  destruct (rx_assembly_is_lsb_first example_uart 0 1
              [1; 1; 0; 0; 1; 0; 1; 0] [1; 1])
    as (_ & H2 & _ & _ & _ & H6).
  - reflexivity.
  - exact example_frame_config.
  - reflexivity.
  - reflexivity.
  - exact example_sink_attached.
  - split; [exact H2 | exact H6].
Defined.

(** Edges during the first four ticks of a frame are ignored. *)
Lemma edge_ignored_in_frame_witness :
  handle_rx_start mid_frame_uart = (mid_frame_uart, []).
Proof.
  destruct edge_ignored_in_frame as [_ H].
  destruct (H (fst (handle_rx_start example_uart)) [0; 1; 1; 0]) as [_ H2].
  - reflexivity.
  - exact example_frame_config.
  - cbn. lia.
  - exact H2.
Defined.

(** An idle transmitter with an empty queue lets its timer lapse. *)
Lemma tx_idle_disarm_witness :
  handle_tx (uart_init 4) = (uart_init 4, [], HRTIMER_NORESTART).
Proof.
  destruct tx_idle_disarm as (_ & H & _).
  destruct (H (uart_init 4)) as [H1 _]; [reflexivity | reflexivity | exact H1].
Defined.

(** Two stop bits with parity: parity slot 8, final stop slot 10. *)
Lemma setters_keep_layout_consistent_witness :
  parity_index (config example_uart) = 8 /\
  final_stop_bit_index (config example_uart) = 10.
Proof.
  destruct setters_keep_layout_consistent as (_ & _ & _ & _ & H).
  apply (H (config example_uart)).
  - exact (proj1 example_frame_config).
  - unfold in_int. cbn. lia.
  - unfold in_int. cbn. lia.
Defined.

(** Three bytes offered to a queue with room for two. *)
Lemma send_string_queue_witness :
  let r := raspberry_soft_uart_send_string [1; 2; 3] 3 example_uart in
  snd r = 2 /\
  q_items (queue_tx (fst (fst r))) = [0x53; 0xA1; 1; 2].
Proof.
  destruct (send_string_queue example_uart [1; 2; 3]) as (H1 & H2 & _).
  - unfold queue_wf. vm_compute. lia.
  - split; [exact H1 | exact H2].
Defined.

(** A full queue and no session: nothing is accepted, the timer starts. *)
Lemma send_string_arms_unconditionally_witness :
  let r := raspberry_soft_uart_send_string [0x43] 1 full_queue_uart in
  current_tty full_queue_uart = None /\
  snd r = 0 /\
  snd (fst r) = [HrtimerStart TimerTx Period] /\
  timer_tx_active (fst (fst r)) = true.
Proof.
  destruct (send_string_arms_unconditionally full_queue_uart [0x43] 1)
    as (H1 & H2 & _ & H4).
  - reflexivity.
  - split; [reflexivity |]. split; [| split; [exact H1 | exact H2]].
    apply H4. left. reflexivity.
Defined.

(** * Further properties of the driver *)

(** ** Frames with any number of stop bits *)

Lemma any_stop_config_cases (c : line_config) :
  any_stop_config c ->
  in_int (final_stop_bit_index c) /\
  ((truthy (parity_en c) = false /\ parity_index c = -1 /\
    final_stop_bit_index c = 7 + stop_bits c) \/
   (truthy (parity_en c) = true /\ parity_index c = 8 /\
    final_stop_bit_index c = 8 + stop_bits c)).
Proof.
  intros [[Hp Hf] [H1 H8]]. unfold in_int in *.
  split; [rewrite Hf; apply int_add_in_int |].
  destruct (truthy (parity_en c)); [right | left];
    (split; [reflexivity | split; [assumption |]]);
    rewrite Hf; apply int_add_exact; unfold in_int; lia.
Qed.

Lemma frame_config_any_stop (c : line_config) :
  frame_config c -> any_stop_config c.
Proof.
  intros [Hl Hs]. split; [exact Hl |]. unfold in_int.
  destruct Hs as [-> | ->]; lia.
Qed.

Lemma stop_events_from (k : nat) : forall i : nat,
  flat_map (fun _ => [GpioSetValue 1; HrtimerForward TimerTx]) (seq i k)
    = stop_events k.
Proof.
  unfold stop_events. induction k as [| k IH]; intros i; [reflexivity |].
  cbn [seq flat_map]. now rewrite (IH (S i)), (IH 1%nat).
Qed.

Lemma gpio_levels_stop_events (k : nat) :
  gpio_levels (stop_events k) = repeat 1 k.
Proof.
  induction k as [| k IH]; [reflexivity |].
  unfold stop_events. cbn [seq flat_map].
  rewrite gpio_levels_app, stop_events_from, IH. reflexivity.
Qed.

(** [k] stop ticks that do not reach the final slot. *)
Lemma tx_ticks_stops (k : nat) : forall u : uart,
  8 <= tx_bit_index (tx u) ->
  parity_index (config u) < tx_bit_index (tx u) ->
  tx_bit_index (tx u) + Z.of_nat k <= final_stop_bit_index (config u) ->
  in_int (final_stop_bit_index (config u)) ->
  tx_ticks k u =
    (with_tx (mkTx (tx_character (tx u)) (tx_bit_index (tx u) + Z.of_nat k)
                   (tx_parity (tx u))) u,
     stop_events k).
Proof.
  induction k as [| k IH]; intros u H8 Hp Hf Hr.
  - cbn [tx_ticks]. rewrite Z.add_0_r.
    now destruct u as [? ? ? ? ? ? [] ?].
  - rewrite Nat2Z.inj_succ in Hf.
    eapply tx_ticks_cons.
    + apply handle_tx_stop_slot; (assumption || lia).
    + rewrite IH by (fields; (assumption || lia)).
      fields. rewrite Nat2Z.inj_succ.
      replace (tx_bit_index (tx u) + 1 + Z.of_nat k)
        with (tx_bit_index (tx u) + Z.succ (Z.of_nat k)) by lia.
      f_equal. symmetry. apply stop_events_from.
Qed.

Lemma stop_bits_succ (c : line_config) :
  1 <= stop_bits c ->
  exists k : nat, Z.to_nat (stop_bits c) = S k /\ stop_bits c = Z.of_nat k + 1.
Proof.
  intros H. exists (Z.to_nat (stop_bits c) - 1)%nat. split; lia.
Qed.

(** A whole frame sent from the idle state, for any number of stop bits. *)
Lemma tx_frame_run_any (u : uart) (b : Z) (rest : list Z) :
  tx_bit_index (tx u) = -1 ->
  q_items (queue_tx u) = b :: rest ->
  any_stop_config (config u) ->
  exists evs : list event,
    tx_ticks (frame_slots (config u)) u =
      (with_tx (mkTx 0 (-1) 0)
               (with_queue (mkQueue rest (q_capacity (queue_tx u))) u), evs) /\
    gpio_levels evs = frame_levels (config u) b.
Proof.
  intros Hi Hq Hc.
  destruct (any_stop_config_cases _ Hc) as [Hr Hcases].
  destruct (stop_bits_succ (config u) (proj1 (proj2 Hc))) as (k & Hn & Hk).
  unfold frame_slots, frame_levels, parity_levels.
  destruct Hcases as [(Ep & Hp & Hf) | (Ep & Hp & Hf)];
    rewrite Ep, Hn; rewrite Hf in Hr.
  - (* no parity *)
    replace (1 + 8 + 0 + S k)%nat with (S (8 + (k + 1)))%nat by lia.
    eexists. split.
    + eapply tx_ticks_cons; [apply handle_tx_start_slot; eassumption |].
      eapply tx_ticks_add; [apply tx_ticks_data |].
      eapply tx_ticks_add;
        [apply tx_ticks_stops; fields; unfold in_int in *; lia |].
      eapply tx_ticks_cons;
        [ rewrite handle_tx_final_stop_slot by (fields; lia); reflexivity
        | reflexivity ].
    + rewrite !gpio_levels_app, gpio_levels_data_events,
        gpio_levels_stop_events.
      cbn [gpio_levels app]. rewrite gpio_levels_restart_timer.
      cbn [app]. now rewrite <- repeat_cons.
  - (* parity *)
    replace (1 + 8 + 1 + S k)%nat with (S (8 + (1 + (k + 1))))%nat by lia.
    eexists. split.
    + eapply tx_ticks_cons; [apply handle_tx_start_slot; eassumption |].
      eapply tx_ticks_add; [apply tx_ticks_data |].
      eapply tx_ticks_add;
        [ eapply tx_ticks_cons;
          [ rewrite handle_tx_parity_slot by (fields; lia); fields; reflexivity
          | reflexivity ] |].
      eapply tx_ticks_add;
        [apply tx_ticks_stops; fields; unfold in_int in *; lia |].
      eapply tx_ticks_cons;
        [ rewrite handle_tx_final_stop_slot by (fields; lia); reflexivity
        | reflexivity ].
    + rewrite !gpio_levels_app, gpio_levels_data_events,
        gpio_levels_stop_events.
      fields. cbn [gpio_levels app]. rewrite gpio_levels_restart_timer.
      cbn [app]. now rewrite <- repeat_cons.
Qed.

(** Receive ticks over stop slots that are not the final one. *)
Lemma rx_ticks_extra_stops (l : list Z) : forall u : uart,
  8 <= rx_bit_index (rx u) ->
  parity_index (config u) < rx_bit_index (rx u) ->
  rx_bit_index (rx u) + Z.of_nat (length l) <= final_stop_bit_index (config u) ->
  in_int (final_stop_bit_index (config u)) ->
  rx_ticks l u =
    (with_rx (with_rx_bit_index (rx_bit_index (rx u) + Z.of_nat (length l))
                                (rx u)) u,
     repeat (HrtimerForward TimerRx) (length l)).
Proof.
  induction l as [| v l IH]; intros u H8 Hp Hf Hr.
  - cbn [rx_ticks length repeat]. rewrite Z.add_0_r.
    now destruct u as [? ? ? ? ? ? ? []].
  - cbn [length] in *. rewrite Nat2Z.inj_succ in *.
    cbn [rx_ticks]. rewrite handle_rx_extra_stop_slot by (assumption || lia).
    rewrite IH by (fields; (assumption || lia)).
    unfold with_rx_bit_index. fields.
    replace (rx_bit_index (rx u) + 1 + Z.of_nat (length l))
      with (rx_bit_index (rx u) + Z.succ (Z.of_nat (length l))) by lia.
    reflexivity.
Qed.

(** The receiver's state when the final stop slot is reached, for any
    number of stop bits. *)
Lemma rx_frame_before_final_any (u : uart) (v0 : Z) (d tail : list Z) :
  rx_bit_index (rx u) = -1 ->
  any_stop_config (config u) ->
  length d = 8%nat ->
  length tail = (frame_slots (config u) - 10)%nat ->
  rx_ticks (v0 :: d ++ tail) u =
    (with_rx (rx_at_final_slot (config u) d tail) u,
     repeat (HrtimerForward TimerRx) (length (v0 :: d ++ tail))).
Proof.
  intros Hi Hc Hd Ht.
  destruct (any_stop_config_cases _ Hc) as [Hr Hcases].
  destruct (stop_bits_succ (config u) (proj1 (proj2 Hc))) as (k & Hn & Hk).
  unfold frame_slots in Ht. unfold rx_at_final_slot.
  cbn [rx_ticks]. rewrite handle_rx_start_slot by assumption.
  rewrite rx_ticks_app.
  rewrite (rx_ticks_data d)
    by (fields; rewrite ?Hd; change (Z.of_nat 8) with 8; lia).
  fields. rewrite Hd. change (0 + Z.of_nat 8) with 8.
  cbn [length]. rewrite length_app, Hd.
  destruct Hcases as [(Ep & Hp & Hf) | (Ep & Hp & Hf)];
    rewrite Ep, Hn in Ht; rewrite Ep; rewrite Hf in Hr.
  - (* no parity *)
    assert (Hlen : length tail = k) by lia.
    rewrite (rx_ticks_extra_stops tail)
      by (fields; rewrite ?Hlen; unfold in_int in *; lia).
    fields. unfold with_rx_bit_index. fields. rewrite Hlen.
    replace (8 + Z.of_nat k) with (7 + stop_bits (config u)) by lia.
    rewrite <- repeat_app. reflexivity.
  - (* parity *)
    destruct tail as [| pv stops]; [cbn in Ht; lia |].
    assert (Hlen : length stops = k) by (cbn [length] in Ht; lia).
    cbn [rx_ticks hd].
    rewrite handle_rx_parity_slot by (fields; lia). fields.
    rewrite (rx_ticks_extra_stops stops)
      by (fields; rewrite ?Hlen; unfold in_int in *; lia).
    fields. unfold with_rx_bit_index. fields. rewrite Hlen.
    replace (9 + Z.of_nat k) with (8 + stop_bits (config u)) by lia.
    cbn [length]. rewrite Hlen.
    replace (repeat (HrtimerForward TimerRx) (8 + S k))
      with (repeat (HrtimerForward TimerRx) 8
              ++ (HrtimerForward TimerRx :: repeat (HrtimerForward TimerRx) k))
      by (rewrite (repeat_app _ 8 (S k)); reflexivity).
    destruct (pv =? fold_left Z.lxor d (parity_init (config u))); reflexivity.
Qed.

Lemma final_slot_past_data_any (c : line_config) :
  any_stop_config c ->
  8 <= final_stop_bit_index c /\ final_stop_bit_index c <> parity_index c.
Proof.
  intros Hc. destruct (any_stop_config_cases _ Hc) as [_ Hcases].
  destruct Hc as (_ & H1 & _).
  destruct Hcases as [(_ & Hp & Hf) | (_ & Hp & Hf)]; rewrite Hp, Hf; lia.
Qed.

(** A whole received frame, for any number of stop bits. *)
Lemma rx_frame_run_any (u : uart) (v0 vf : Z) (d tail : list Z) :
  rx_bit_index (rx u) = -1 ->
  any_stop_config (config u) ->
  length d = 8%nat ->
  length tail = (frame_slots (config u) - 10)%nat ->
  rx_ticks ((v0 :: d ++ tail) ++ [vf]) u =
    (with_rx (with_rx_bit_index (-1) (rx_at_final_slot (config u) d tail)) u,
     repeat (HrtimerForward TimerRx) (length (v0 :: d ++ tail)) ++
     (if rx_parity_ok (rx_at_final_slot (config u) d tail)
         || truthy (ignore_parity_errors (config u))
      then receive_character (fold_left rx_shift_in d 0) u else [])).
Proof.
  intros Hi Hc Hd Ht.
  destruct (final_slot_past_data_any _ Hc) as [H8 Hne].
  rewrite rx_ticks_app, (rx_frame_before_final_any u v0 d tail Hi Hc Hd Ht).
  cbn [fst snd rx_ticks].
  rewrite handle_rx_final_stop_slot by (fields; auto).
  unfold rx_at_final_slot, with_rx_bit_index. fields.
  rewrite app_nil_r. reflexivity.
Qed.

(** ** Streams of frames *)

(** The levels of one frame, received from the start state. *)
Lemma rx_ticks_frame_levels (u : uart) (b : Z) :
  is_byte b ->
  rx_bit_index (rx u) = -1 ->
  any_stop_config (config u) ->
  sink_attached u ->
  exists (r : rx_frame) (evs : list event),
    rx_ticks (frame_levels (config u) b) u = (with_rx r u, evs) /\
    rx_bit_index r = -1 /\
    rx_parity_ok r = true /\
    delivered evs = [b].
Proof.
  intros Hb Hi Hc Hsink.
  destruct (any_stop_config_cases _ Hc) as [_ Hcases].
  destruct (stop_bits_succ (config u) (proj1 (proj2 Hc))) as (k & Hn & _).
  assert (Hsplit : exists tail,
    frame_levels (config u) b = (0 :: data_bits b ++ tail) ++ [1] /\
    length tail = (frame_slots (config u) - 10)%nat /\
    (truthy (parity_en (config u)) = true ->
     hd 0 tail = fold_left Z.lxor (data_bits b) (parity_init (config u)))).
  { unfold frame_levels, parity_levels, frame_slots. rewrite Hn.
    change (repeat 1 (S k)) with (1 :: repeat 1 k). rewrite repeat_cons.
    destruct (truthy (parity_en (config u))).
    - exists (fold_left Z.lxor (data_bits b) (parity_init (config u))
              :: repeat 1 k).
      split; [cbn [app]; now rewrite <- !app_assoc |].
      split; [cbn [length]; rewrite repeat_length; lia | reflexivity].
    - exists (repeat 1 k).
      split; [cbn [app]; now rewrite <- !app_assoc |].
      split; [rewrite repeat_length; lia | discriminate]. }
  destruct Hsplit as (tail & -> & Hlen & Hhd).
  rewrite (rx_frame_run_any u 0 1 (data_bits b) tail Hi Hc eq_refl Hlen).
  assert (Hok : rx_parity_ok (rx_at_final_slot (config u) (data_bits b) tail)
                = true).
  { unfold rx_at_final_slot. cbn [rx_parity_ok].
    destruct (truthy (parity_en (config u))); [| reflexivity].
    rewrite (Hhd eq_refl). apply Z.eqb_refl. }
  eexists. eexists. split; [reflexivity |].
  split; [reflexivity |]. split; [exact Hok |].
  rewrite Hok. cbn [orb].
  rewrite delivered_app, delivered_forwards, delivered_receive_character
    by assumption.
  rewrite rx_register_after_data by reflexivity.
  rewrite map_sample_bit_bits by apply data_bits_are_bits.
  rewrite assemble_data_bits by assumption.
  unfold to_uchar. now rewrite Z.mod_small by exact Hb.
Qed.

Lemma tx_stream_run (bs : list Z) : forall (u : uart) (rest : list Z),
  tx_bit_index (tx u) = -1 ->
  q_items (queue_tx u) = bs ++ rest ->
  any_stop_config (config u) ->
  exists (u' : uart) (evs : list event),
    tx_ticks (length bs * frame_slots (config u)) u = (u', evs) /\
    gpio_levels evs = flat_map (frame_levels (config u)) bs /\
    tx_bit_index (tx u') = -1 /\
    q_items (queue_tx u') = rest /\
    config u' = config u /\
    rx u' = rx u /\
    rx_callback u' = rx_callback u /\
    current_tty u' = current_tty u.
Proof.
  induction bs as [| b bs IH]; intros u rest Hi Hq Hc.
  - exists u, []. cbn. repeat split; auto.
  - destruct (tx_frame_run_any u b (bs ++ rest) Hi Hq Hc)
      as (e1 & Hrun & Hlev).
    set (u1 := with_tx (mkTx 0 (-1) 0)
                 (with_queue (mkQueue (bs ++ rest) (q_capacity (queue_tx u))) u))
      in *.
    destruct (IH u1 rest eq_refl eq_refl Hc)
      as (u' & e2 & Hrun2 & Hlev2 & H1 & H2 & H3 & H4 & H5 & H6).
    exists u', (e1 ++ e2).
    split.
    { change (length (b :: bs) * frame_slots (config u))%nat
        with (frame_slots (config u) + length bs * frame_slots (config u))%nat.
      exact (tx_ticks_add _ _ _ _ _ _ _ Hrun Hrun2). }
    split.
    { rewrite gpio_levels_app, Hlev, Hlev2. reflexivity. }
    repeat split; assumption.
Qed.

Lemma rx_stream_run (bs : list Z) : forall u : uart,
  Forall is_byte bs ->
  rx_bit_index (rx u) = -1 ->
  any_stop_config (config u) ->
  sink_attached u ->
  exists (r : rx_frame) (evs : list event),
    rx_ticks (flat_map (frame_levels (config u)) bs) u = (with_rx r u, evs) /\
    rx_bit_index r = -1 /\
    delivered evs = bs.
Proof.
  induction bs as [| b bs IH]; intros u Hbs Hi Hc Hsink.
  - exists (rx u), []. cbn. split; [now destruct u | split; [assumption | reflexivity]].
  - inversion Hbs as [| ? ? Hb Hbs']; subst.
    destruct (rx_ticks_frame_levels u b Hb Hi Hc Hsink)
      as (r1 & e1 & Hrun1 & Hr1 & _ & Hd1).
    destruct (IH (with_rx r1 u) Hbs' Hr1 Hc Hsink)
      as (r2 & e2 & Hrun2 & Hr2 & Hd2).
    exists r2, (e1 ++ e2).
    cbn [flat_map]. rewrite rx_ticks_app, Hrun1. cbn [fst snd].
    change (config (with_rx r1 u)) with (config u) in Hrun2.
    rewrite Hrun2. cbn [fst snd].
    split; [reflexivity |]. split; [assumption |].
    rewrite delivered_app, Hd1, Hd2. reflexivity.
Qed.

Lemma example_any_stop_config : any_stop_config (config example_uart).
Proof. apply frame_config_any_stop, example_frame_config. Qed.

(** X1 (transmit order).  With any positive number of stop bits, the
    bytes at the head of the queue leave in queue order, one frame each and
    back to back: after [frame_slots] ticks per byte the line has carried the
    frames of the bytes in order, each with exactly [stop_bits] stop bits, the
    transmitter is idle again and the bytes behind them are still queued. *)
Theorem tx_stream_fifo (u : uart) (bs rest : list Z) :
  tx_bit_index (tx u) = -1 ->
  q_items (queue_tx u) = bs ++ rest ->
  any_stop_config (config u) ->
  let r := tx_ticks (length bs * frame_slots (config u)) u in
  gpio_levels (snd r) = flat_map (frame_levels (config u)) bs /\
  tx_bit_index (tx (fst r)) = -1 /\
  q_items (queue_tx (fst r)) = rest /\
  config (fst r) = config u.
Proof.
  intros Hi Hq Hc r.
  destruct (tx_stream_run bs u rest Hi Hq Hc)
    as (u' & evs & Hrun & Hlev & H1 & H2 & H3 & _).
  subst r. rewrite Hrun. cbn [fst snd]. repeat split; assumption.
Qed.

Lemma tx_stream_fifo_witness :
  gpio_levels (snd (tx_ticks (2 * frame_slots (config example_uart)) example_uart))
    = [0; 1; 1; 0; 0; 1; 0; 1; 0; 1; 1; 1;
       0; 1; 0; 0; 0; 0; 1; 0; 1; 0; 1; 1] /\
  q_items (queue_tx (fst (tx_ticks (2 * frame_slots (config example_uart))
                                   example_uart))) = [].
Proof.
  destruct (tx_stream_fifo example_uart [0x53; 0xA1] [])
    as (H1 & _ & H3 & _).
  - reflexivity.
  - reflexivity.
  - exact example_any_stop_config.
  - split; [exact H1 | exact H3].
Defined.

(** X2 (stream round trip).  With any positive number of stop bits and
    any parity mode, the levels the transmitter drives for a run of queued
    bytes, fed to the receive callback one tick per level, make the receiver
    deliver exactly those bytes, in order, and leave it waiting for a start
    edge: the tick after a final stop slot is the start tick of the next
    frame. *)
Theorem stream_round_trip (u : uart) (bs rest : list Z) :
  Forall is_byte bs ->
  any_stop_config (config u) ->
  tx_bit_index (tx u) = -1 ->
  q_items (queue_tx u) = bs ++ rest ->
  rx_bit_index (rx u) = -1 ->
  sink_attached u ->
  let t := tx_ticks (length bs * frame_slots (config u)) u in
  let r := rx_ticks (gpio_levels (snd t)) (fst t) in
  delivered (snd r) = bs /\
  rx_bit_index (rx (fst r)) = -1.
Proof.
  intros Hbs Hc Htx Hq Hrx Hsink t r.
  destruct (tx_stream_run bs u rest Htx Hq Hc)
    as (u' & evs & Hrun & Hlev & _ & _ & Hcfg & Hrxu & Hcb & Htty).
  assert (Hsink' : sink_attached u').
  { unfold sink_attached in *. now rewrite Hcb, Htty. }
  assert (Hc' : any_stop_config (config u')) by now rewrite Hcfg.
  assert (Hrx' : rx_bit_index (rx u') = -1) by now rewrite Hrxu.
  destruct (rx_stream_run bs u' Hbs Hrx' Hc' Hsink')
    as (r2 & e2 & Hrun2 & Hr2 & Hd2).
  subst r t. rewrite Hrun. cbn [fst snd]. rewrite Hlev, <- Hcfg, Hrun2.
  cbn [fst snd]. split; assumption.
Qed.

Lemma three_stop_any_stop_config : any_stop_config (config three_stop_uart).
Proof.
  split; [split; reflexivity |].
  split; [vm_compute; discriminate |].
  unfold in_int. vm_compute. split; [discriminate | reflexivity].
Qed.

(** Two bytes through a line with three stop bits and odd parity. *)
Lemma stream_round_trip_witness :
  let t := tx_ticks (2 * frame_slots (config three_stop_uart)) three_stop_uart in
  gpio_levels (snd t)
    = [0; 1; 1; 0; 0; 1; 0; 1; 0; 1; 1; 1; 1;
       0; 1; 0; 0; 0; 0; 1; 0; 1; 0; 1; 1; 1] /\
  delivered (snd (rx_ticks (gpio_levels (snd t)) (fst t))) = [0x53; 0xA1].
Proof.
  destruct (stream_round_trip three_stop_uart [0x53; 0xA1] []) as (H1 & _).
  - repeat constructor; unfold is_byte; lia.
  - exact three_stop_any_stop_config.
  - reflexivity.
  - reflexivity.
  - reflexivity.
  - exact example_sink_attached.
  - split; [vm_compute; reflexivity | exact H1].
Defined.

(** ** The receive register *)

Lemma delivered_receive_character_in (c x : Z) (u : uart) :
  In x (delivered (receive_character c u)) -> x = to_uchar c.
Proof.
  unfold receive_character.
  destruct (rx_callback u); [cbn; intuition |].
  destruct (current_tty u) as [tty |]; [| cbn; tauto].
  destruct (tty_port tty); cbn; intuition.
Qed.

Lemma handle_rx_register (v : Z) (u : uart) :
  is_byte (rx_character (rx u)) ->
  is_byte (rx_character (rx (fst (fst (handle_rx v u))))) /\
  (forall x : Z,
     In x (delivered (snd (fst (handle_rx v u)))) -> x = rx_character (rx u)).
Proof.
  intros Hb. unfold handle_rx.
  destruct (rx_bit_index (rx u) =? -1).
  { cbn. split; [unfold is_byte; lia | tauto]. }
  destruct ((0 <=? rx_bit_index (rx u)) && (rx_bit_index (rx u) <? 8)).
  { cbn [fst snd rx with_rx rx_character app delivered restart_timer].
    split; [apply (rx_shift_in_is_byte _ v Hb) | intros x []]. }
  destruct (rx_bit_index (rx u) =? parity_index (config u)).
  { cbn. split; [exact Hb | tauto]. }
  destruct (rx_bit_index (rx u) <? final_stop_bit_index (config u)).
  { cbn. split; [exact Hb | tauto]. }
  destruct (rx_bit_index (rx u) =? final_stop_bit_index (config u)).
  - cbn [fst snd rx with_rx rx_character restart_timer]. split; [exact Hb |].
    rewrite app_nil_r.
    destruct (rx_parity_ok (rx u) || truthy (ignore_parity_errors (config u)));
      [| intros x []].
    intros x Hx. apply delivered_receive_character_in in Hx.
    unfold to_uchar in Hx. now rewrite Z.mod_small in Hx by exact Hb.
  - cbn. split; [exact Hb | tauto].
Qed.

(** X3 (register width).  Whatever the configuration, the cursor and the
    sampled values, a receive tick keeps the shift register below 256 once
    it is below 256, as it is initially and after every start tick.  So the
    conversion to [unsigned char] in [receive_character] never discards a
    set bit: a byte handed to the sink is the register itself. *)
Theorem rx_register_stays_byte :
  (forall (samples : list Z) (u : uart),
     is_byte (rx_character (rx u)) ->
     is_byte (rx_character (rx (fst (rx_ticks samples u))))) /\
  (forall (v : Z) (u : uart),
     is_byte (rx_character (rx u)) ->
     forall x : Z,
       In x (delivered (snd (fst (handle_rx v u)))) ->
       x = rx_character (rx u)) /\
  (forall (v : Z) (u : uart),
     rx_bit_index (rx u) = -1 ->
     rx_character (rx (fst (fst (handle_rx v u)))) = 0).
Proof.
  split; [| split].
  - induction samples as [| v l IH]; intros u Hb; [exact Hb |].
    cbn [rx_ticks]. pose proof (proj1 (handle_rx_register v u Hb)) as H1.
    destruct (handle_rx v u) as [[u1 e1] r1]. cbn [fst] in H1.
    specialize (IH u1 H1). destruct (rx_ticks l u1) as [u2 e2]. exact IH.
  - intros v u Hb. apply handle_rx_register. exact Hb.
  - intros v u Hi. now rewrite handle_rx_start_slot.
Qed.

Lemma rx_register_stays_byte_witness :
  is_byte (rx_character (rx (fst (rx_ticks [0; 7; 1; 0; 2] example_uart)))).
Proof.
  destruct rx_register_stays_byte as [H _].
  apply (H [0; 7; 1; 0; 2] example_uart). clear H. unfold is_byte.
  vm_compute. split; [discriminate | reflexivity].
Defined.

(** ** The receive parity check *)

Lemma mod2_cases (n : Z) : n mod 2 = 0 \/ n mod 2 = 1.
Proof. pose proof (Z.mod_pos_bound n 2 ltac:(lia)). lia. Qed.

Lemma parity_check_iff (pv seed n : Z) :
  is_bit pv -> is_bit seed ->
  ((pv =? (seed + n) mod 2) = true <-> (n + pv) mod 2 = seed).
Proof.
  intros Hp Hs.
  rewrite <- (Z.add_mod_idemp_r seed n 2), <- (Z.add_mod_idemp_l n pv 2) by lia.
  destruct (mod2_cases n) as [-> | ->], Hp as [-> | ->], Hs as [-> | ->];
    cbv; split; congruence.
Qed.

Lemma tail_length_parity (c : line_config) (stops : list Z) (pv : Z) :
  any_stop_config c ->
  truthy (parity_en c) = true ->
  length stops = (Z.to_nat (stop_bits c) - 1)%nat ->
  length (pv :: stops) = (frame_slots c - 10)%nat.
Proof.
  intros (_ & H1 & _) Ep Hl. unfold frame_slots. rewrite Ep.
  cbn [length]. lia.
Qed.

(** X4 (parity acceptance).  With parity enabled and samples that are
    0 or 1, a received frame is handed to the sink exactly when the number
    of ones among its eight data samples and its parity sample has the
    configured parity (even for seed 0, odd for seed 1), or when parity
    errors are ignored; the byte then is the LSB-first value of the data
    samples.  Otherwise the frame produces no delivery. *)
Theorem rx_parity_acceptance (u : uart) (v0 vf pv : Z) (d stops : list Z) :
  rx_bit_index (rx u) = -1 ->
  any_stop_config (config u) ->
  truthy (parity_en (config u)) = true ->
  is_bit (parity_init (config u)) ->
  length d = 8%nat ->
  Forall is_bit d ->
  is_bit pv ->
  length stops = (Z.to_nat (stop_bits (config u)) - 1)%nat ->
  sink_attached u ->
  let r := rx_ticks ((v0 :: d ++ pv :: stops) ++ [vf]) u in
  let consistent := (set_bits d + pv) mod 2 = parity_init (config u) in
  (consistent \/ ignore_parity_errors (config u) <> 0 ->
   delivered (snd r) = [assemble_lsb_first d]) /\
  (~ consistent -> ignore_parity_errors (config u) = 0 ->
   delivered (snd r) = []) /\
  rx_bit_index (rx (fst r)) = -1.
Proof.
  intros Hi Hc Ep Hseed Hd Hbits Hpv Hstops Hsink r consistent.
  pose proof (tail_length_parity _ stops pv Hc Ep Hstops) as Hlen.
  subst r. rewrite (rx_frame_run_any u v0 vf d (pv :: stops) Hi Hc Hd Hlen).
  cbn [fst snd]. unfold rx_at_final_slot. cbn [rx_parity_ok hd]. rewrite Ep.
  destruct (fold_lxor_bits d _ Hbits Hseed) as [Hfold _]. rewrite Hfold.
  pose proof (parity_check_iff pv _ (set_bits d) Hpv Hseed) as Hiff.
  fold consistent in Hiff.
  rewrite delivered_app, delivered_forwards. cbn [app].
  split; [| split; [| reflexivity]].
  - intros Hyes.
    assert (E : (pv =? (parity_init (config u) + set_bits d) mod 2)
                || truthy (ignore_parity_errors (config u)) = true).
    { apply orb_true_iff. destruct Hyes as [H | H];
        [left; now apply Hiff | right; now apply truthy_true]. }
    rewrite E, delivered_receive_character by assumption.
    rewrite rx_register_after_data, map_sample_bit_bits by assumption.
    pose proof (assembled_is_byte d Hd) as Hbyte.
    rewrite map_sample_bit_bits in Hbyte by assumption.
    unfold to_uchar. now rewrite Z.mod_small by exact Hbyte.
  - intros Hno Hign.
    destruct (pv =? (parity_init (config u) + set_bits d) mod 2) eqn:E.
    + exfalso. apply Hno. now apply Hiff.
    + rewrite Hign. reflexivity.
Qed.

Lemma rx_parity_acceptance_witness :
  delivered (snd (rx_ticks ((0 :: [1; 1; 0; 0; 1; 0; 1; 0] ++ 1 :: [1]) ++ [1])
                           example_uart)) = [0x53].
Proof.
  destruct (rx_parity_acceptance example_uart 0 1 1 [1; 1; 0; 0; 1; 0; 1; 0] [1])
    as (H1 & _).
  - reflexivity.
  - exact example_any_stop_config.
  - reflexivity.
  - right. reflexivity.
  - reflexivity.
  - repeat constructor; (now left) || (now right).
  - now right.
  - reflexivity.
  - exact example_sink_attached.
  - apply H1. left. reflexivity.
Defined.

Lemma fold_lxor_complement (l : list Z) (a : Z) :
  Forall is_bit l -> is_bit a ->
  fold_left Z.lxor l (1 - a) = 1 - fold_left Z.lxor l a.
Proof.
  intros Hl Ha.
  assert (Ha' : is_bit (1 - a)) by (destruct Ha as [-> | ->]; [now right | now left]).
  destruct (fold_lxor_bits l a Hl Ha) as [-> _].
  destruct (fold_lxor_bits l (1 - a) Hl Ha') as [-> _].
  rewrite <- (Z.add_mod_idemp_r a (set_bits l) 2),
          <- (Z.add_mod_idemp_r (1 - a) (set_bits l) 2) by lia.
  destruct (mod2_cases (set_bits l)) as [-> | ->], Ha as [-> | ->]; reflexivity.
Qed.

Lemma flip_bit_length (l : list Z) : forall i : nat,
  length (flip_bit i l) = length l.
Proof.
  induction l as [| x l IH]; intros i; [now destruct i |].
  destruct i; cbn; [reflexivity | now rewrite IH].
Qed.

Lemma fold_lxor_flip_bit (l : list Z) : forall (i : nat) (seed : Z),
  (i < length l)%nat -> Forall is_bit l -> is_bit seed ->
  fold_left Z.lxor (flip_bit i l) seed = 1 - fold_left Z.lxor l seed.
Proof.
  induction l as [| x l IH]; intros i seed Hi Hl Hs; [cbn in Hi; lia |].
  inversion Hl as [| ? ? Hx Hl']; subst.
  destruct i as [| i]; cbn [flip_bit fold_left].
  - replace (Z.lxor seed (1 - x)) with (1 - Z.lxor seed x)
      by (destruct Hs as [-> | ->], Hx as [-> | ->]; reflexivity).
    apply fold_lxor_complement; [assumption |].
    now apply lxor_bits.
  - apply IH; [cbn in Hi; lia | assumption | now apply lxor_bits].
Qed.

(** X5 (single-bit errors).  With parity enabled and parity errors not
    ignored, a frame as the transmitter sends it for [b], with any one of its
    eight data bits inverted, or with its parity bit inverted, is dropped by
    the receiver: nothing is delivered. *)
Theorem single_bit_error_dropped
  (u : uart) (b v0 vf : Z) (stops : list Z) :
  rx_bit_index (rx u) = -1 ->
  any_stop_config (config u) ->
  truthy (parity_en (config u)) = true ->
  ignore_parity_errors (config u) = 0 ->
  is_bit (parity_init (config u)) ->
  length stops = (Z.to_nat (stop_bits (config u)) - 1)%nat ->
  let d := data_bits b in
  let p := fold_left Z.lxor d (parity_init (config u)) in
  parity_levels (config u) b = [p] /\
  (forall i : nat,
     (i < 8)%nat ->
     delivered
       (snd (rx_ticks ((v0 :: flip_bit i d ++ p :: stops) ++ [vf]) u)) = []) /\
  delivered (snd (rx_ticks ((v0 :: d ++ (1 - p) :: stops) ++ [vf]) u)) = [].
Proof.
  intros Hi Hc Ep Hign Hseed Hstops d p.
  pose proof (data_bits_are_bits b) as Hbits. fold d in Hbits.
  assert (Hp : is_bit p) by (apply fold_lxor_bits; assumption).
  assert (Hneq : forall x, is_bit x -> (x =? 1 - x) = false)
    by (intros x [-> | ->]; reflexivity).
  split; [unfold parity_levels; now rewrite Ep |]. split.
  - intros i Hlt.
    pose proof (tail_length_parity _ stops p Hc Ep Hstops) as Hlen.
    rewrite (rx_frame_run_any u v0 vf (flip_bit i d) (p :: stops) Hi Hc
               (flip_bit_length d i) Hlen).
    cbn [snd]. unfold rx_at_final_slot. cbn [rx_parity_ok hd].
    rewrite Ep, Hign, fold_lxor_flip_bit by (assumption || exact Hlt).
    fold p. rewrite (Hneq p Hp).
    rewrite delivered_app, delivered_forwards. reflexivity.
  - pose proof (tail_length_parity _ stops (1 - p) Hc Ep Hstops) as Hlen.
    rewrite (rx_frame_run_any u v0 vf d ((1 - p) :: stops) Hi Hc eq_refl Hlen).
    cbn [snd]. unfold rx_at_final_slot. cbn [rx_parity_ok hd].
    rewrite Ep, Hign. fold p.
    replace (1 - p =? p) with false
      by (destruct Hp as [-> | ->]; reflexivity).
    rewrite delivered_app, delivered_forwards. reflexivity.
Qed.

Lemma single_bit_error_dropped_witness :
  delivered
    (snd (rx_ticks ((0 :: flip_bit 2 (data_bits 0x53) ++ 1 :: [1]) ++ [1])
                   example_uart)) = [].
Proof.
  destruct (single_bit_error_dropped example_uart 0x53 0 1 [1])
    as (_ & H & _).
  - reflexivity.
  - exact example_any_stop_config.
  - reflexivity.
  - reflexivity.
  - right. reflexivity.
  - reflexivity.
  - apply (H 2%nat). lia.
Defined.

(** ** Levels on the output line *)

Lemma handle_tx_bits (u : uart) :
  is_bit (parity_init (config u)) ->
  is_bit (tx_parity (tx u)) ->
  Forall is_bit (gpio_levels (snd (fst (handle_tx u)))) /\
  is_bit (tx_parity (tx (fst (fst (handle_tx u))))) /\
  config (fst (fst (handle_tx u))) = config u.
Proof.
  intros Hseed Hpar.
  assert (H0 : is_bit 0) by now left.
  assert (H1 : is_bit 1) by now right.
  unfold handle_tx.
  destruct (tx_bit_index (tx u) =? -1).
  { unfold dequeue_character. destruct (q_items (queue_tx u)); cbn; auto. }
  destruct ((0 <=? tx_bit_index (tx u)) && (tx_bit_index (tx u) <? 8)) eqn:E.
  { apply andb_true_iff in E. destruct E as [E _]. apply Z.leb_le in E.
    pose proof (tx_bit_is_bit (tx_character (tx u)) _ E) as Hbit.
    cbn [fst snd tx with_tx tx_parity config restart_timer app gpio_levels].
    split; [constructor; [exact Hbit | constructor] |].
    split; [now apply lxor_bits | reflexivity]. }
  destruct (tx_bit_index (tx u) =? parity_index (config u)).
  { cbn. auto. }
  destruct (tx_bit_index (tx u) <=? final_stop_bit_index (config u)); [| cbn; auto].
  destruct (tx_bit_index (tx u) =? final_stop_bit_index (config u)); [| cbn; auto].
  destruct (0 <? get_queue_size (queue_tx u)); cbn; auto.
Qed.

Lemma run_setter_parity_init (call : setter_call) (u : uart) :
  is_bit (parity_init (config u)) ->
  is_bit (parity_init (config (run_setter call u))).
Proof.
  intros H. destruct call as [n | en odd ign]; cbn.
  - unfold config_set_stop_bits.
    destruct (recalc_indices_flags
                (mkConfig n (parity_en (config u)) (ignore_parity_errors (config u))
                   (parity_init (config u)) (final_stop_bit_index (config u))
                   (parity_index (config u)))) as (_ & _ & _ & ->).
    exact H.
  - unfold config_set_parity.
    destruct (recalc_indices_flags
                (mkConfig (stop_bits (config u)) en ign
                   (if truthy odd then 1 else 0)
                   (final_stop_bit_index (config u))
                   (parity_index (config u)))) as (_ & _ & _ & ->).
    cbn. destruct (truthy odd); [now right | now left].
Qed.

(** X6 (line levels).  [raspberry_soft_uart_set_parity] stores 1 or 0 as
    the parity seed whatever [parity_odd] is, so from the initial state and
    through any setter calls the seed is a bit; and with a seed and an
    accumulator that are bits, every level the transmit callback ever passes
    to [gpio_set_value] is 0 or 1, whatever the cursor, the byte being sent
    and the queue. *)
Theorem tx_levels_are_bits :
  (forall (cap : nat) (calls : list setter_call),
     is_bit (parity_init (config (run_setters calls (uart_init cap))))) /\
  (forall (n : nat) (u : uart),
     is_bit (parity_init (config u)) ->
     is_bit (tx_parity (tx u)) ->
     Forall is_bit (gpio_levels (snd (tx_ticks n u))) /\
     is_bit (tx_parity (tx (fst (tx_ticks n u))))).
Proof.
  split.
  - intros cap calls.
    assert (H : forall u, is_bit (parity_init (config u)) ->
                          is_bit (parity_init (config (run_setters calls u)))).
    { induction calls as [| call calls IH]; intros u Hu; [exact Hu |].
      cbn. apply IH. now apply run_setter_parity_init. }
    apply H. now left.
  - induction n as [| n IH]; intros u Hseed Hpar.
    + cbn. split; [constructor | exact Hpar].
    + cbn [tx_ticks].
      destruct (handle_tx_bits u Hseed Hpar) as (H1 & H2 & H3).
      destruct (handle_tx u) as [[u1 e1] r1]. cbn [fst snd] in *.
      rewrite <- H3 in Hseed. destruct (IH u1 Hseed H2) as [H4 H5].
      destruct (tx_ticks n u1) as [u2 e2]. cbn [fst snd] in *.
      split; [| exact H5].
      rewrite gpio_levels_app. apply Forall_app. split; assumption.
Qed.

Lemma tx_levels_are_bits_witness :
  Forall is_bit (gpio_levels (snd (tx_ticks 30 example_uart))).
Proof.
  destruct tx_levels_are_bits as [_ H].
  apply (H 30%nat example_uart); [now right | now left].
Defined.

(** ** Cursors beyond the final stop slot *)

Lemma handle_rx_stuck (v : Z) (u : uart) :
  8 <= rx_bit_index (rx u) ->
  rx_bit_index (rx u) <> parity_index (config u) ->
  final_stop_bit_index (config u) < rx_bit_index (rx u) ->
  handle_rx v u = (u, [], HRTIMER_NORESTART).
Proof.
  intros Hi Hp Hf. unfold handle_rx.
  destruct (past_data_slots _ Hi) as [E1 E2]. rewrite E1, E2.
  apply Z.eqb_neq in Hp. rewrite Hp.
  replace (rx_bit_index (rx u) <? final_stop_bit_index (config u)) with false
    by (symmetry; apply Z.ltb_ge; lia).
  replace (rx_bit_index (rx u) =? final_stop_bit_index (config u)) with false
    by (symmetry; apply Z.eqb_neq; lia).
  reflexivity.
Qed.

(** X7 (receiver stuck).  A receive cursor that lies beyond the final
    stop slot (which a setter called during a frame can cause) is never left
    by the driver's handlers: every receive tick returns the state unchanged
    with [HRTIMER_NORESTART] and delivers nothing, and the edge handler
    ignores every edge, so no later frame is received.  [close] keeps the
    cursor; only [open] puts it back to -1. *)
Theorem rx_stuck_past_final (u : uart) :
  8 <= rx_bit_index (rx u) ->
  rx_bit_index (rx u) <> parity_index (config u) ->
  final_stop_bit_index (config u) < rx_bit_index (rx u) ->
  (forall samples : list Z, rx_ticks samples u = (u, [])) /\
  (forall v : Z, snd (handle_rx v u) = HRTIMER_NORESTART) /\
  handle_rx_start u = (u, []) /\
  rx (fst (fst (raspberry_soft_uart_close u))) = rx u /\
  (forall tty : tty_struct,
     rx_bit_index (rx (fst (fst (raspberry_soft_uart_open tty u)))) = -1).
Proof.
  intros Hi Hp Hf.
  split; [| split; [| split; [| split]]].
  - induction samples as [| v l IH]; [reflexivity |].
    cbn [rx_ticks]. rewrite handle_rx_stuck by assumption. now rewrite IH.
  - intros v. now rewrite handle_rx_stuck.
  - unfold handle_rx_start.
    replace (rx_bit_index (rx u) =? -1) with false
      by (symmetry; apply Z.eqb_neq; lia).
    reflexivity.
  - reflexivity.
  - intros tty. unfold raspberry_soft_uart_open.
    cbn [current_tty with_rx]. now destruct (current_tty u).
Qed.

Lemma rx_stuck_past_final_witness :
  rx_bit_index (rx stuck_rx_uart) = 10 /\
  final_stop_bit_index (config stuck_rx_uart) = 9 /\
  rx_ticks [0; 1; 0; 1; 1; 1] stuck_rx_uart = (stuck_rx_uart, []) /\
  handle_rx_start stuck_rx_uart = (stuck_rx_uart, []).
Proof.
  destruct (rx_stuck_past_final stuck_rx_uart) as (H1 & _ & H3 & _).
  - vm_compute. discriminate.
  - vm_compute. discriminate.
  - vm_compute. reflexivity.
  - split; [vm_compute; reflexivity |]. split; [vm_compute; reflexivity |].
    split; [apply H1 | exact H3].
Defined.

Lemma reopen_and_send_state (tty : tty_struct) (string : list Z)
  (string_size : Z) (u : uart) :
  let u' := reopen_and_send tty string string_size u in
  tx u' = tx u /\
  config u' = config u /\
  rx_bit_index (rx u') = -1 /\
  current_tty u' = Some tty /\
  timer_tx_active u' = true /\
  q_items (queue_tx u') =
    firstn (q_capacity (queue_tx u)) (firstn (Z.to_nat string_size) string).
Proof.
  unfold reopen_and_send, raspberry_soft_uart_close, raspberry_soft_uart_open,
    raspberry_soft_uart_send_string, enqueue_string, initialize_queue.
  cbn [current_tty with_tty with_timer_tx with_timer_rx with_rx with_queue
       queue_tx timer_tx_active q_items q_capacity negb length app
       tx rx config rx_bit_index with_rx_bit_index].
  rewrite Nat.sub_0_r. repeat split; reflexivity.
Qed.

Lemma handle_tx_stuck (u : uart) :
  8 <= tx_bit_index (tx u) ->
  tx_bit_index (tx u) <> parity_index (config u) ->
  final_stop_bit_index (config u) < tx_bit_index (tx u) ->
  handle_tx u = (u, [], HRTIMER_NORESTART).
Proof.
  intros Hi Hp Hf. unfold handle_tx.
  destruct (past_data_slots _ Hi) as [E1 E2]. rewrite E1, E2.
  apply Z.eqb_neq in Hp. rewrite Hp.
  replace (tx_bit_index (tx u) <=? final_stop_bit_index (config u)) with false
    by (symmetry; apply Z.leb_gt; lia).
  reflexivity.
Qed.

Lemma tx_ticks_stuck (n : nat) (u : uart) :
  8 <= tx_bit_index (tx u) ->
  tx_bit_index (tx u) <> parity_index (config u) ->
  final_stop_bit_index (config u) < tx_bit_index (tx u) ->
  tx_ticks n u = (u, []).
Proof.
  intros Hi Hp Hf. induction n as [| n IH]; [reflexivity |].
  cbn [tx_ticks]. rewrite handle_tx_stuck by assumption. now rewrite IH.
Qed.

(** X8 (transmitter stuck).  A transmit cursor beyond the final stop slot
    is never left: every transmit tick returns the state unchanged with
    [HRTIMER_NORESTART] and drives nothing.  Closing the session, opening it
    again and queueing new bytes does not help, because none of these touches
    the statics of [handle_tx]: the new bytes stay in the queue and the line
    is never driven. *)
Theorem tx_stuck_past_final (u : uart) :
  8 <= tx_bit_index (tx u) ->
  tx_bit_index (tx u) <> parity_index (config u) ->
  final_stop_bit_index (config u) < tx_bit_index (tx u) ->
  (forall n : nat, tx_ticks n u = (u, [])) /\
  snd (handle_tx u) = HRTIMER_NORESTART /\
  (forall (tty : tty_struct) (string : list Z) (string_size : Z) (n : nat),
     let u' := reopen_and_send tty string string_size u in
     tx u' = tx u /\
     tx_ticks n u' = (u', [])).
Proof.
  intros Hi Hp Hf. split; [| split].
  - intros n. now apply tx_ticks_stuck.
  - now rewrite handle_tx_stuck.
  - intros tty string string_size n u'.
    destruct (reopen_and_send_state tty string string_size u)
      as (Htx & Hcfg & _).
    fold u' in Htx, Hcfg. split; [exact Htx |].
    apply tx_ticks_stuck; rewrite Htx, ?Hcfg; assumption.
Qed.

Lemma tx_stuck_past_final_witness :
  tx_bit_index (tx stuck_tx_uart) = 10 /\
  final_stop_bit_index (config stuck_tx_uart) = 9 /\
  let u' := reopen_and_send other_tty [0x55] 1 stuck_tx_uart in
  q_items (queue_tx u') = [0x55] /\
  tx_ticks 40 u' = (u', []).
Proof.
  destruct (tx_stuck_past_final stuck_tx_uart) as (_ & _ & H).
  - vm_compute. discriminate.
  - vm_compute. discriminate.
  - vm_compute. reflexivity.
  - split; [vm_compute; reflexivity |]. split; [vm_compute; reflexivity |].
    split; [vm_compute; reflexivity |].
    apply (H other_tty [0x55] 1 40%nat).
Defined.

(** X9 (frame resumed after reopen).  [close] and [open] do not reset the
    statics of [handle_tx].  If the session is closed while a byte is being
    sent (cursor at a data slot), then after [open] and the next
    [send_string] the first transmit tick drives the next data bit of the old
    byte, with no start bit, and leaves the newly queued bytes in the
    queue. *)
Theorem tx_resumes_after_reopen
  (u : uart) (tty : tty_struct) (string : list Z) (string_size : Z) :
  0 <= tx_bit_index (tx u) < 8 ->
  let u' := reopen_and_send tty string string_size u in
  let bit := tx_bit (tx_character (tx u)) (tx_bit_index (tx u)) in
  handle_tx u' =
    (with_tx (mkTx (tx_character (tx u)) (tx_bit_index (tx u) + 1)
                   (Z.lxor (tx_parity (tx u)) bit)) u',
     [GpioSetValue bit; HrtimerForward TimerTx], HRTIMER_RESTART) /\
  queue_tx (fst (fst (handle_tx u'))) = queue_tx u' /\
  timer_tx_active u' = true.
Proof.
  intros Hi u' bit.
  destruct (reopen_and_send_state tty string string_size u)
    as (Htx & _ & _ & _ & Hact & _).
  fold u' in Htx, Hact.
  assert (Hstep : handle_tx u' =
    (with_tx (mkTx (tx_character (tx u)) (tx_bit_index (tx u) + 1)
                   (Z.lxor (tx_parity (tx u)) bit)) u',
     [GpioSetValue bit; HrtimerForward TimerTx], HRTIMER_RESTART)).
  { rewrite handle_tx_data_slot by (rewrite Htx; exact Hi).
    subst bit. now rewrite Htx. }
  split; [exact Hstep |]. rewrite Hstep. split; [reflexivity | exact Hact].
Qed.

Lemma tx_resumes_after_reopen_witness :
  let u' := reopen_and_send other_tty [0x00] 1 mid_tx_uart in
  tx_bit_index (tx mid_tx_uart) = 3 /\
  q_items (queue_tx u') = [0x00] /\
  snd (fst (handle_tx u')) = [GpioSetValue 0; HrtimerForward TimerTx] /\
  q_items (queue_tx (fst (fst (handle_tx u')))) = [0x00].
Proof.
  destruct (tx_resumes_after_reopen mid_tx_uart other_tty [0x00] 1)
    as (H1 & H2 & _).
  - vm_compute. split; [discriminate | reflexivity].
  - split; [vm_compute; reflexivity |]. split; [vm_compute; reflexivity |].
    split; [rewrite H1; vm_compute; reflexivity |].
    rewrite H2. vm_compute. reflexivity.
Defined.

(** ** Zero stop bits *)

Lemma no_stop_config_cases (c : line_config) :
  no_stop_config c ->
  (truthy (parity_en c) = false /\ parity_index c = -1 /\
   final_stop_bit_index c = 7) \/
  (truthy (parity_en c) = true /\ parity_index c = 8 /\
   final_stop_bit_index c = 8).
Proof.
  intros [[Hp Hf] Hs]. rewrite Hs in Hf.
  destruct (truthy (parity_en c)); [right | left]; repeat split; assumption.
Qed.

Lemma handle_rx_no_stop (v : Z) (u : uart) :
  no_stop_config (config u) ->
  -1 <= rx_bit_index (rx u) ->
  delivered (snd (fst (handle_rx v u))) = [] /\
  -1 <= rx_bit_index (rx (fst (fst (handle_rx v u)))) /\
  config (fst (fst (handle_rx v u))) = config u.
Proof.
  intros Hc Hi.
  destruct (Z.eq_dec (rx_bit_index (rx u)) (-1)) as [E | E].
  { rewrite handle_rx_start_slot by assumption. cbn. repeat split; lia. }
  destruct (Z_lt_le_dec (rx_bit_index (rx u)) 8) as [Hlt | Hge].
  { rewrite handle_rx_data_slot by lia. cbn. repeat split; lia. }
  destruct (no_stop_config_cases _ Hc) as [(_ & Hp & Hf) | (_ & Hp & Hf)].
  - rewrite handle_rx_stuck by lia. cbn. repeat split; lia.
  - destruct (Z.eq_dec (rx_bit_index (rx u)) 8) as [E8 | E8].
    + rewrite handle_rx_parity_slot by assumption. cbn. repeat split; lia.
    + rewrite handle_rx_stuck by lia. cbn. repeat split; lia.
Qed.

Lemma set_stop_bits_zero (u : uart) :
  no_stop_config (config (fst (raspberry_soft_uart_set_stop_bits 0 u))).
Proof.
  split; [apply (run_setter_layout (SetStopBits 0)) |].
  cbn. apply stop_bits_set_stop_bits.
Qed.

(** X10 (zero stop bits, receive side).
    [raspberry_soft_uart_set_stop_bits] accepts 0 and reports success, but
    with zero stop bits the final stop slot coincides with a data slot (or
    with the parity slot), which is tested first: the receiver never reaches
    the delivering branch.  From any cursor of at least -1, no run of
    receive ticks delivers a byte, whatever is sampled. *)
Theorem zero_stop_bits_never_delivers :
  (forall u : uart,
     snd (raspberry_soft_uart_set_stop_bits 0 u) = 1 /\
     no_stop_config (config (fst (raspberry_soft_uart_set_stop_bits 0 u)))) /\
  (forall (samples : list Z) (u : uart),
     no_stop_config (config u) ->
     -1 <= rx_bit_index (rx u) ->
     delivered (snd (rx_ticks samples u)) = []).
Proof.
  split.
  - intros u. split; [reflexivity | apply set_stop_bits_zero].
  - induction samples as [| v l IH]; intros u Hc Hi; [reflexivity |].
    cbn [rx_ticks].
    destruct (handle_rx_no_stop v u Hc Hi) as (H1 & H2 & H3).
    destruct (handle_rx v u) as [[u1 e1] r1]. cbn [fst snd] in *.
    rewrite <- H3 in Hc. specialize (IH u1 Hc H2).
    destruct (rx_ticks l u1) as [u2 e2]. cbn [snd] in *.
    now rewrite delivered_app, H1, IH.
Qed.

Lemma zero_stop_bits_never_delivers_witness :
  delivered (snd (rx_ticks [0; 1; 1; 0; 0; 1; 0; 1; 0; 1; 1; 1; 1; 0; 1]
                           zero_stop_uart)) = [].
Proof.
  destruct zero_stop_bits_never_delivers as [_ H].
  apply H.
  - exact (set_stop_bits_zero example_uart).
  - vm_compute. discriminate.
Defined.

(** X11 (zero stop bits, transmit side).  With zero stop bits the
    transmitter sends the start bit, the eight data bits and the parity bit
    if enabled of the first queued byte, and then stops for good: it never
    drives the line high again, its cursor stays past the final stop slot
    and the bytes behind the first are never sent, however many ticks
    follow. *)
Theorem zero_stop_bits_truncates_tx
  (u : uart) (b : Z) (rest : list Z) (k : nat) :
  no_stop_config (config u) ->
  tx_bit_index (tx u) = -1 ->
  q_items (queue_tx u) = b :: rest ->
  let p := if truthy (parity_en (config u)) then 1%nat else 0%nat in
  let r := tx_ticks (9 + p + k) u in
  gpio_levels (snd r) = 0 :: data_bits b ++ parity_levels (config u) b /\
  q_items (queue_tx (fst r)) = rest /\
  tx_bit_index (tx (fst r)) = 8 + Z.of_nat p.
Proof.
  intros Hc Hi Hq p r.
  assert (Hrun : exists evs,
    tx_ticks (9 + p + k) u =
      (with_tx (mkTx b (8 + Z.of_nat p)
                  (fold_left Z.lxor (data_bits b) (parity_init (config u))))
         (with_queue (mkQueue rest (q_capacity (queue_tx u))) u), evs) /\
    gpio_levels evs = 0 :: data_bits b ++ parity_levels (config u) b).
  { subst p. unfold parity_levels.
    destruct (no_stop_config_cases _ Hc) as [(Ep & Hp & Hf) | (Ep & Hp & Hf)];
      rewrite Ep.
    - change (9 + 0 + k)%nat with (S (8 + k)). eexists. split.
      + eapply tx_ticks_cons; [apply handle_tx_start_slot; eassumption |].
        eapply tx_ticks_add; [apply tx_ticks_data |].
        apply tx_ticks_stuck; fields; lia.
      + rewrite !gpio_levels_app, gpio_levels_data_events.
        cbn [gpio_levels app]. rewrite ?app_nil_r. reflexivity.
    - change (9 + 1 + k)%nat with (S (8 + S k)). eexists. split.
      + eapply tx_ticks_cons; [apply handle_tx_start_slot; eassumption |].
        eapply tx_ticks_add; [apply tx_ticks_data |].
        eapply tx_ticks_cons;
          [ rewrite handle_tx_parity_slot by (fields; lia); fields; reflexivity |].
        apply tx_ticks_stuck; fields; lia.
      + rewrite !gpio_levels_app, gpio_levels_data_events.
        cbn [gpio_levels app]. rewrite ?app_nil_r. reflexivity. }
  destruct Hrun as (evs & Hrun & Hlev).
  subst r. rewrite Hrun. cbn [fst snd]. repeat split; assumption.
Qed.

Lemma zero_stop_bits_truncates_tx_witness :
  gpio_levels (snd (tx_ticks (9 + 1 + 30) zero_stop_uart))
    = [0; 1; 1; 0; 0; 1; 0; 1; 0; 1] /\
  q_items (queue_tx (fst (tx_ticks (9 + 1 + 30) zero_stop_uart))) = [0xA1].
Proof.
  destruct (zero_stop_bits_truncates_tx zero_stop_uart 0x53 [0xA1] 30)
    as (H1 & H2 & _).
  - exact (set_stop_bits_zero example_uart).
  - reflexivity.
  - reflexivity.
  - split; [exact H1 | exact H2].
Defined.

(** ** Sessions *)

Lemma open_all_while_open (ttys : list tty_struct) : forall (u : uart)
  (t0 : tty_struct),
  current_tty u = Some t0 ->
  current_tty (fst (open_all ttys u)) = Some t0 /\
  queue_tx (fst (open_all ttys u)) = queue_tx u /\
  config (fst (open_all ttys u)) = config u /\
  tx (fst (open_all ttys u)) = tx u /\
  Forall (fun success => success = 0) (snd (open_all ttys u)).
Proof.
  induction ttys as [| tty ttys IH]; intros u t0 Ht.
  - cbn. repeat split; auto.
  - cbn [open_all]. rewrite (open_while_open tty t0 u Ht).
    destruct (IH (with_rx (with_rx_bit_index (-1) (rx u)) u) t0 Ht)
      as (H1 & H2 & H3 & H4 & H5).
    destruct (open_all ttys _) as [u2 results]. cbn [fst snd] in *.
    repeat split; try assumption. constructor; [reflexivity | assumption].
Qed.

(** X12 (session life cycle).  While a session is open, any number of
    further calls of [open] all return 0 and leave the tty, the transmit
    queue, the configuration and the transmit statics as they are.  [close]
    returns 1, makes both timers inactive and detaches the tty but keeps the
    queued bytes, and a second [close] changes nothing more.  The [open]
    after a [close] always succeeds: it attaches the new tty, empties the
    queue (keeping its capacity), enables the interrupt and puts the receive
    cursor to -1, while the configuration, the receive callback and the
    transmit statics survive the cycle. *)
Theorem session_life_cycle (u : uart) (tty : tty_struct) :
  let c := raspberry_soft_uart_close u in
  let o := raspberry_soft_uart_open tty (fst (fst c)) in
  (forall (ttys : list tty_struct) (t0 : tty_struct),
     current_tty u = Some t0 ->
     current_tty (fst (open_all ttys u)) = Some t0 /\
     queue_tx (fst (open_all ttys u)) = queue_tx u /\
     config (fst (open_all ttys u)) = config u /\
     tx (fst (open_all ttys u)) = tx u /\
     Forall (fun success => success = 0) (snd (open_all ttys u))) /\
  (snd c = 1 /\
   current_tty (fst (fst c)) = None /\
   timer_tx_active (fst (fst c)) = false /\
   timer_rx_active (fst (fst c)) = false /\
   queue_tx (fst (fst c)) = queue_tx u /\
   fst (fst (raspberry_soft_uart_close (fst (fst c)))) = fst (fst c)) /\
  (snd o = 1 /\
   snd (fst o) = [EnableIrq] /\
   current_tty (fst (fst o)) = Some tty /\
   q_items (queue_tx (fst (fst o))) = [] /\
   q_capacity (queue_tx (fst (fst o))) = q_capacity (queue_tx u) /\
   rx_bit_index (rx (fst (fst o))) = -1) /\
  (config (fst (fst o)) = config u /\
   rx_callback (fst (fst o)) = rx_callback u /\
   tx (fst (fst o)) = tx u).
Proof.
  cbv zeta. split; [| repeat split].
  intros ttys t0 Ht. now apply open_all_while_open.
Qed.

Lemma session_life_cycle_witness :
  snd (open_all [other_tty; example_tty; other_tty] example_uart) = [0; 0; 0] /\
  current_tty (fst (open_all [other_tty; example_tty; other_tty] example_uart))
    = Some example_tty.
Proof.
  destruct (session_life_cycle example_uart other_tty) as (H & _).
  destruct (H [other_tty; example_tty; other_tty] example_tty eq_refl)
    as (H1 & _).
  split; [reflexivity | exact H1].
Defined.

(** ** Baud rate *)

(** X13 (bit timing).  For a positive baud rate,
    [raspberry_soft_uart_set_baudrate] stores as period the whole number of
    nanoseconds per bit (10^9 / baudrate, rounded down), as half period half
    of that rounded down, so the first sample of a frame falls in the middle
    of the start bit up to a nanosecond; the period is 0 exactly for rates
    above 10^9.  The debounce it programs is 0 exactly for rates above
    500. *)
Theorem set_baudrate_timing (baudrate : Z) :
  0 < baudrate ->
  let t := fst (raspberry_soft_uart_set_baudrate baudrate) in
  snd (raspberry_soft_uart_set_baudrate baudrate) = 1 /\
  period t * baudrate <= 1000000000 < (period t + 1) * baudrate /\
  2 * half_period t <= period t <= 2 * half_period t + 1 /\
  (period t = 0 <-> 1000000000 < baudrate) /\
  (debounce t = 0 <-> 500 < baudrate).
Proof.
  intros Hb t. subst t. cbn [fst snd period half_period debounce
                              raspberry_soft_uart_set_baudrate].
  rewrite !(Z.quot_div_nonneg _ baudrate) by lia.
  assert (Hp : 0 <= 1000000000 / baudrate) by (apply Z.div_pos; lia).
  assert (Hd : 0 <= 1000 / baudrate) by (apply Z.div_pos; lia).
  rewrite !(Z.quot_div_nonneg _ 2) by lia.
  split; [reflexivity |].
  split.
  { split.
    - rewrite Z.mul_comm. apply Z.mul_div_le. lia.
    - rewrite Z.mul_comm. apply Z.mul_succ_div_gt. lia. }
  split.
  { pose proof (Z.mul_div_le (1000000000 / baudrate) 2 ltac:(lia)).
    pose proof (Z.mul_succ_div_gt (1000000000 / baudrate) 2 ltac:(lia)).
    lia. }
  split.
  { rewrite Z.div_small_iff by lia. lia. }
  rewrite Z.div_div by lia. rewrite Z.div_small_iff by lia. lia.
Qed.

Lemma set_baudrate_timing_witness :
  let t := fst (raspberry_soft_uart_set_baudrate 9600) in
  period t = 104166 /\ half_period t = 52083 /\ debounce t = 0 /\
  period t * 9600 <= 1000000000 < (period t + 1) * 9600.
Proof.
  destruct (set_baudrate_timing 9600) as (_ & H & _).
  - lia.
  - repeat split; try reflexivity; apply H.
Defined.

(** ** Where received bytes go *)

Lemma frame_levels_split (c : line_config) (b : Z) :
  any_stop_config c ->
  exists tail : list Z,
    frame_levels c b = (0 :: data_bits b ++ tail) ++ [1] /\
    length tail = (frame_slots c - 10)%nat /\
    length (0 :: data_bits b ++ tail) = (frame_slots c - 1)%nat /\
    (truthy (parity_en c) = true ->
     hd 0 tail = fold_left Z.lxor (data_bits b) (parity_init c)).
Proof.
  intros Hc.
  destruct (stop_bits_succ c (proj1 (proj2 Hc))) as (k & Hn & _).
  unfold frame_levels, parity_levels, frame_slots. rewrite Hn.
  change (repeat 1 (S k)) with (1 :: repeat 1 k). rewrite repeat_cons.
  destruct (truthy (parity_en c)).
  - exists (fold_left Z.lxor (data_bits b) (parity_init c) :: repeat 1 k).
    split; [cbn [app]; now rewrite <- !app_assoc |].
    split; [cbn [length]; rewrite repeat_length; lia |].
    split; [| reflexivity].
    cbn [length]. rewrite length_app. cbn [length].
    rewrite repeat_length. change (length (data_bits b)) with 8%nat. lia.
  - exists (repeat 1 k).
    split; [cbn [app]; now rewrite <- !app_assoc |].
    split; [rewrite repeat_length; lia |].
    split; [| discriminate].
    cbn [length]. rewrite length_app, repeat_length.
    change (length (data_bits b)) with 8%nat. lia.
Qed.

(** Everything the receive callback asks of the kernel over the frame
    of [b]. *)
Lemma rx_ticks_frame_events (u : uart) (b : Z) :
  is_byte b ->
  rx_bit_index (rx u) = -1 ->
  any_stop_config (config u) ->
  snd (rx_ticks (frame_levels (config u) b) u) =
    repeat (HrtimerForward TimerRx) (frame_slots (config u) - 1)
      ++ receive_character b u.
Proof.
  intros Hb Hi Hc.
  destruct (frame_levels_split (config u) b Hc)
    as (tail & -> & Hlen & Hlen' & Hhd).
  rewrite (rx_frame_run_any u 0 1 (data_bits b) tail Hi Hc eq_refl Hlen).
  cbn [snd]. rewrite Hlen'.
  assert (Hok : rx_parity_ok (rx_at_final_slot (config u) (data_bits b) tail)
                = true).
  { unfold rx_at_final_slot. cbn [rx_parity_ok].
    destruct (truthy (parity_en (config u))); [| reflexivity].
    rewrite (Hhd eq_refl). apply Z.eqb_refl. }
  rewrite Hok. cbn [orb].
  rewrite rx_register_after_data by reflexivity.
  rewrite map_sample_bit_bits by apply data_bits_are_bits.
  now rewrite assemble_data_bits by assumption.
Qed.

(** X14 (routing of received bytes).  Over the frame of a byte [b] the
    receive callback forwards its timer once per slot but the last, and then
    hands [b] over exactly once: to the callback set by
    [raspberry_soft_uart_set_rx_callback] if there is one, whether or not a
    session is open and without touching the tty; with the callback reset to
    NULL, to the port of the open tty; and with neither, to nobody: the frame
    is consumed and the byte is lost without any other event. *)
Theorem received_byte_routing (u : uart) (b callback : Z) :
  is_byte b ->
  rx_bit_index (rx u) = -1 ->
  any_stop_config (config u) ->
  let line := frame_levels (config u) b in
  let forwards :=
    repeat (HrtimerForward TimerRx) (frame_slots (config u) - 1) in
  let with_cb := fst (raspberry_soft_uart_set_rx_callback (Some callback) u) in
  let without := fst (raspberry_soft_uart_set_rx_callback None u) in
  snd (rx_ticks line with_cb) = forwards ++ [CallbackCall callback b] /\
  (forall (tty : tty_struct) (port : Z),
     current_tty u = Some tty -> tty_port tty = Some port ->
     snd (rx_ticks line without) =
       forwards ++ [TtyInsertFlipChar port b; TtyFlipBufferPush port]) /\
  (current_tty u = None \/
   (exists tty, current_tty u = Some tty /\ tty_port tty = None) ->
   snd (rx_ticks line without) = forwards).
Proof.
  intros Hb Hi Hc line forwards with_cb without.
  assert (Hmod : to_uchar b = b) by (unfold to_uchar; now apply Z.mod_small).
  pose proof (rx_ticks_frame_events
                (fst (raspberry_soft_uart_set_rx_callback (Some callback) u)) b
                Hb Hi Hc) as Hcb.
  pose proof (rx_ticks_frame_events
                (fst (raspberry_soft_uart_set_rx_callback None u)) b Hb Hi Hc)
    as Hnull.
  change (config (fst (raspberry_soft_uart_set_rx_callback (Some callback) u)))
    with (config u) in Hcb.
  change (config (fst (raspberry_soft_uart_set_rx_callback None u)))
    with (config u) in Hnull.
  subst line forwards with_cb without. rewrite Hcb, Hnull.
  unfold receive_character. cbn [fst raspberry_soft_uart_set_rx_callback
                                 with_callback rx_callback current_tty].
  rewrite Hmod.
  split; [reflexivity | split].
  - intros tty port Htty Hport. now rewrite Htty, Hport.
  - intros [-> | (tty & -> & ->)]; now rewrite app_nil_r.
Qed.

Lemma received_byte_routing_witness :
  snd (rx_ticks (frame_levels (config example_uart) 0x53)
                (fst (raspberry_soft_uart_set_rx_callback (Some 7) example_uart)))
    = repeat (HrtimerForward TimerRx) 11 ++ [CallbackCall 7 0x53].
Proof.
  destruct (received_byte_routing example_uart 0x53 7) as (H & _).
  - unfold is_byte. lia.
  - reflexivity.
  - exact example_any_stop_config.
  - exact H.
Defined.

(** ** How long the timers run *)

Lemma any_stop_final_bounds (c : line_config) :
  any_stop_config c ->
  8 <= final_stop_bit_index c /\
  in_int (final_stop_bit_index c) /\
  (parity_index c = -1 \/
   parity_index c = 8 /\ 9 <= final_stop_bit_index c) /\
  Z.of_nat (frame_slots c) = final_stop_bit_index c + 2.
Proof.
  intros Hc. destruct (any_stop_config_cases _ Hc) as [Hr Hcases].
  destruct (stop_bits_succ c (proj1 (proj2 Hc))) as (k & Hn & Hk).
  unfold frame_slots. rewrite Hn.
  destruct Hcases as [(Ep & Hp & Hf) | (Ep & Hp & Hf)]; rewrite Ep.
  - split; [lia |]. split; [assumption |]. split; [now left | lia].
  - split; [lia |]. split; [assumption |]. split; [right; lia | lia].
Qed.

Lemma handle_tx_pending (u : uart) :
  any_stop_config (config u) ->
  -1 <= tx_bit_index (tx u) <= final_stop_bit_index (config u) ->
  config (fst (fst (handle_tx u))) = config u /\
  -1 <= tx_bit_index (tx (fst (fst (handle_tx u))))
     <= final_stop_bit_index (config u) /\
  tx_pending (fst (fst (handle_tx u))) = Z.max 0 (tx_pending u - 1) /\
  still_active (snd (handle_tx u)) = (1 <? tx_pending u).
Proof.
  intros Hc Hi.
  destruct (any_stop_final_bounds _ Hc) as (H8 & Hr & Hpar & _).
  set (F := final_stop_bit_index (config u)) in *.
  assert (Hneg : forall i, -1 <= i -> i <> -1 -> (i =? -1) = false)
    by (intros i _ Hne; now apply Z.eqb_neq).
  destruct (Z.eq_dec (tx_bit_index (tx u)) (-1)) as [E | E].
  { destruct (q_items (queue_tx u)) as [| b rest] eqn:Hq.
    - rewrite handle_tx_idle_empty by assumption. cbn [fst snd still_active].
      unfold tx_pending. rewrite E, Hq. cbn [Z.eqb Pos.eqb length].
      change (Z.of_nat 0) with 0. pending_arith.
    - rewrite (handle_tx_start_slot u b rest E Hq).
      unfold tx_pending. fields. cbn [q_items]. rewrite E, Hq. fold F.
      cbn [Z.eqb Pos.eqb length still_active].
      rewrite Nat2Z.inj_succ, Z.mul_succ_l.
      assert (0 <= Z.of_nat (length rest) * (F + 2)) by nia.
      pending_arith. }
  assert (Hq : 0 <= Z.of_nat (length (q_items (queue_tx u))) * (F + 2)) by nia.
  destruct (Z_lt_le_dec (tx_bit_index (tx u)) 8) as [Hlt | Hge].
  { rewrite handle_tx_data_slot by lia.
    unfold tx_pending. fields. fold F.
    rewrite !Hneg by lia. cbn [still_active]. pending_arith. }
  destruct (Z.eq_dec (tx_bit_index (tx u)) (parity_index (config u))) as [Ep | Ep].
  { destruct Hpar as [Hp | [Hp H9]]; [lia |].
    rewrite handle_tx_parity_slot by lia.
    unfold tx_pending. fields. fold F.
    rewrite !Hneg by lia. cbn [still_active]. pending_arith. }
  destruct (Z.eq_dec (tx_bit_index (tx u)) F) as [Ef | Ef].
  - rewrite handle_tx_final_stop_slot by assumption.
    unfold tx_pending, get_queue_size. fields. fold F.
    rewrite (Hneg (tx_bit_index (tx u))) by lia. cbn [Z.eqb Pos.eqb].
    destruct (q_items (queue_tx u)) as [| b rest].
    + cbn [length restart_timer snd still_active Z.ltb Z.compare].
      change (Z.of_nat 0) with 0. pending_arith.
    + cbn [length] in *. rewrite Nat2Z.inj_succ in *.
      replace (0 <? Z.succ (Z.of_nat (length rest))) with true
        by (symmetry; apply Z.ltb_lt; lia).
      cbn [restart_timer snd still_active].
      rewrite Z.mul_succ_l in *.
      assert (0 <= Z.of_nat (length rest) * (F + 2)) by nia.
      pending_arith.
  - rewrite handle_tx_stop_slot by (assumption || lia).
    unfold tx_pending. fields. fold F.
    rewrite !Hneg by lia. cbn [still_active]. pending_arith.
Qed.

Lemma timer_tx_expires_pending (u : uart) :
  any_stop_config (config u) ->
  -1 <= tx_bit_index (tx u) <= final_stop_bit_index (config u) ->
  config (fst (timer_tx_expires u)) = config u /\
  -1 <= tx_bit_index (tx (fst (timer_tx_expires u)))
     <= final_stop_bit_index (config u) /\
  tx_pending (fst (timer_tx_expires u)) = Z.max 0 (tx_pending u - 1) /\
  timer_tx_active (fst (timer_tx_expires u)) = (1 <? tx_pending u).
Proof.
  intros Hc Hi. destruct (handle_tx_pending u Hc Hi) as (H1 & H2 & H3 & H4).
  unfold timer_tx_expires. destruct (handle_tx u) as [[u1 e1] r1].
  cbn [fst snd] in *.
  split; [exact H1 |]. split; [exact H2 |]. split; [exact H3 | exact H4].
Qed.

Lemma tx_pending_nonneg (u : uart) :
  any_stop_config (config u) ->
  -1 <= tx_bit_index (tx u) <= final_stop_bit_index (config u) ->
  0 <= tx_pending u.
Proof.
  intros Hc Hi. destruct (any_stop_final_bounds _ Hc) as (H8 & _).
  unfold tx_pending.
  assert (0 <= Z.of_nat (length (q_items (queue_tx u)))
               * (final_stop_bit_index (config u) + 2)) by nia.
  destruct (tx_bit_index (tx u) =? -1); lia.
Qed.

(** X15 (transmit timer).  With any positive number of stop bits and a
    cursor inside the frame, the number of transmit ticks still due is the
    rest of the frame in progress plus one frame per queued byte
    ([frame_slots] per byte when the transmitter is idle).  Each expiry
    lowers it by one, and the timer is active after the m-th expiry exactly
    when more than m ticks were due: it runs until the queue has drained and
    the last stop bit is out, and not one tick longer. *)
Theorem tx_timer_until_drained (u : uart) (m : nat) :
  any_stop_config (config u) ->
  -1 <= tx_bit_index (tx u) <= final_stop_bit_index (config u) ->
  timer_tx_active (tx_expiries (S m) u) = (Z.of_nat (S m) <? tx_pending u) /\
  tx_pending (tx_expiries (S m) u) = Z.max 0 (tx_pending u - Z.of_nat (S m)) /\
  (tx_bit_index (tx u) = -1 ->
   tx_pending u =
     Z.of_nat (length (q_items (queue_tx u)) * frame_slots (config u))).
Proof.
  intros Hc Hi. split; [| split].
  - revert u Hc Hi. induction m as [| m IH]; intros u Hc Hi;
      destruct (timer_tx_expires_pending u Hc Hi) as (H1 & H2 & H3 & H4);
      pose proof (tx_pending_nonneg u Hc Hi) as H0.
    + cbn [tx_expiries]. exact H4.
    + change (tx_expiries (S (S m)) u)
        with (tx_expiries (S m) (fst (timer_tx_expires u))).
      rewrite <- H1 in Hc, H2. rewrite (IH _ Hc H2), H3.
      rewrite !Nat2Z.inj_succ.
      destruct (Z.ltb_spec (Z.succ (Z.succ (Z.of_nat m))) (tx_pending u));
        [apply Z.ltb_lt | apply Z.ltb_ge]; lia.
  - revert u Hc Hi. induction m as [| m IH]; intros u Hc Hi;
      destruct (timer_tx_expires_pending u Hc Hi) as (H1 & H2 & H3 & H4);
      pose proof (tx_pending_nonneg u Hc Hi) as H0.
    + cbn [tx_expiries]. exact H3.
    + change (tx_expiries (S (S m)) u)
        with (tx_expiries (S m) (fst (timer_tx_expires u))).
      rewrite <- H1 in Hc, H2. rewrite (IH _ Hc H2), H3.
      rewrite !Nat2Z.inj_succ. lia.
  - intros E. destruct (any_stop_final_bounds _ Hc) as (_ & _ & _ & Hslots).
    unfold tx_pending. rewrite E. cbn [Z.eqb Pos.eqb].
    rewrite Nat2Z.inj_mul, Hslots. lia.
Qed.

Lemma tx_timer_until_drained_witness :
  tx_pending example_uart = 24 /\
  timer_tx_active (tx_expiries 23 example_uart) = true /\
  timer_tx_active (tx_expiries 24 example_uart) = false.
Proof.
  destruct (tx_timer_until_drained example_uart 22) as (H1 & _).
  - exact example_any_stop_config.
  - vm_compute. split; discriminate.
  - destruct (tx_timer_until_drained example_uart 23) as (H2 & _).
    + exact example_any_stop_config.
    + vm_compute. split; discriminate.
    + split; [reflexivity |]. split; [rewrite H1 | rewrite H2]; reflexivity.
Defined.

Lemma timer_rx_expires_step (v : Z) (u : uart) :
  any_stop_config (config u) ->
  -1 <= rx_bit_index (rx u) <= final_stop_bit_index (config u) ->
  config (fst (timer_rx_expires v u)) = config u /\
  (rx_bit_index (rx u) < final_stop_bit_index (config u) ->
   rx_bit_index (rx (fst (timer_rx_expires v u))) = rx_bit_index (rx u) + 1 /\
   timer_rx_active (fst (timer_rx_expires v u)) = true) /\
  (rx_bit_index (rx u) = final_stop_bit_index (config u) ->
   rx_bit_index (rx (fst (timer_rx_expires v u))) = -1 /\
   timer_rx_active (fst (timer_rx_expires v u)) = false).
Proof.
  intros Hc Hi.
  destruct (any_stop_final_bounds _ Hc) as (H8 & Hr & Hpar & _).
  unfold timer_rx_expires.
  destruct (Z.eq_dec (rx_bit_index (rx u)) (-1)) as [E | E].
  { rewrite handle_rx_start_slot by assumption. fields. cbn [still_active].
    repeat split; lia. }
  destruct (Z_lt_le_dec (rx_bit_index (rx u)) 8) as [Hlt | Hge].
  { rewrite handle_rx_data_slot by lia. fields. cbn [still_active].
    repeat split; lia. }
  destruct (Z.eq_dec (rx_bit_index (rx u)) (parity_index (config u))) as [Ep | Ep].
  { destruct Hpar as [Hp | [Hp H9]]; [lia |].
    rewrite handle_rx_parity_slot by lia. fields. cbn [still_active].
    repeat split; lia. }
  destruct (Z.eq_dec (rx_bit_index (rx u)) (final_stop_bit_index (config u)))
    as [Ef | Ef].
  - rewrite handle_rx_final_stop_slot by assumption. fields. cbn [still_active].
    repeat split; lia.
  - rewrite handle_rx_extra_stop_slot by (assumption || lia). fields.
    cbn [still_active]. repeat split; lia.
Qed.

(** X16 (receive timer).  With any positive number of stop bits and a
    cursor inside the frame, the receive timer is active after every expiry
    that does not process the final stop slot, the cursor advancing by one
    each time, and inactive after the one that does, which puts the cursor
    back to -1.  From the start state that is [frame_slots] expiries: the
    timer armed by the start edge runs for exactly one frame. *)
Theorem rx_timer_for_one_frame (u : uart) (v : Z) (samples : list Z) :
  any_stop_config (config u) ->
  -1 <= rx_bit_index (rx u) <= final_stop_bit_index (config u) ->
  Z.of_nat (length (v :: samples)) <= rx_pending u ->
  let u' := rx_expiries (v :: samples) u in
  let last := Z.of_nat (length (v :: samples)) =? rx_pending u in
  timer_rx_active u' = negb last /\
  rx_bit_index (rx u') =
    (if last then -1
     else rx_bit_index (rx u) + Z.of_nat (length (v :: samples))) /\
  (rx_bit_index (rx u) = -1 ->
   rx_pending u = Z.of_nat (frame_slots (config u)) /\
   timer_rx_active (fst (handle_rx_start u)) = true).
Proof.
  intros Hc Hi Hlen u' last.
  assert (Hrun : timer_rx_active u' = negb last /\
                 rx_bit_index (rx u') =
                   (if last then -1
                    else rx_bit_index (rx u)
                         + Z.of_nat (length (v :: samples)))).
  { subst u' last. revert v u Hc Hi Hlen.
    induction samples as [| w l IH]; intros v u Hc Hi Hlen;
      destruct (timer_rx_expires_step v u Hc Hi) as (H1 & H2 & H3);
      unfold rx_pending in *.
    - cbn [rx_expiries length] in *. change (Z.of_nat 1) with 1 in *.
      destruct (Z.eq_dec (rx_bit_index (rx u))
                         (final_stop_bit_index (config u))) as [E | E].
      + destruct (H3 E) as [-> ->].
        replace (1 =? _) with true by (symmetry; apply Z.eqb_eq; lia).
        split; reflexivity.
      + destruct (H2 ltac:(lia)) as [-> ->].
        replace (1 =? _) with false by (symmetry; apply Z.eqb_neq; lia).
        split; reflexivity.
    - change (rx_expiries (v :: w :: l) u)
        with (rx_expiries (w :: l) (fst (timer_rx_expires v u))).
      cbn [length] in *. rewrite !Nat2Z.inj_succ in *.
      destruct (H2 ltac:(lia)) as [Hidx _].
      specialize (IH w (fst (timer_rx_expires v u))).
      rewrite H1, Hidx in IH. cbn [length] in IH.
      rewrite ?Nat2Z.inj_succ in IH.
      destruct (IH Hc ltac:(lia) ltac:(lia)) as [IH1 IH2].
      rewrite IH1, IH2.
      replace (Z.succ (Z.of_nat (length l)) =?
               final_stop_bit_index (config u) - (rx_bit_index (rx u) + 1) + 1)
        with (Z.succ (Z.succ (Z.of_nat (length l))) =?
              final_stop_bit_index (config u) - rx_bit_index (rx u) + 1).
      + split; [reflexivity |].
        destruct (Z.succ (Z.succ (Z.of_nat (length l))) =?
                  final_stop_bit_index (config u) - rx_bit_index (rx u) + 1);
          [reflexivity | lia].
      + destruct (Z.eqb_spec (Z.succ (Z.succ (Z.of_nat (length l))))
                    (final_stop_bit_index (config u) - rx_bit_index (rx u) + 1));
          symmetry; [apply Z.eqb_eq | apply Z.eqb_neq]; lia. }
  destruct Hrun as [Hr1 Hr2]. split; [exact Hr1 |]. split; [exact Hr2 |].
  intros E. destruct (any_stop_final_bounds _ Hc) as (_ & _ & _ & Hslots).
  split; [unfold rx_pending; rewrite E, Hslots; lia |].
  unfold handle_rx_start. rewrite E. reflexivity.
Qed.

Lemma rx_timer_for_one_frame_witness :
  timer_rx_active
    (rx_expiries [0; 1; 1; 0; 0; 1; 0; 1; 0; 1; 1] example_uart) = true /\
  timer_rx_active
    (rx_expiries [0; 1; 1; 0; 0; 1; 0; 1; 0; 1; 1; 1] example_uart) = false.
Proof.
  destruct (rx_timer_for_one_frame example_uart 0
              [1; 1; 0; 0; 1; 0; 1; 0; 1; 1]) as (H1 & _).
  - exact example_any_stop_config.
  - vm_compute. split; discriminate.
  - vm_compute. discriminate.
  - destruct (rx_timer_for_one_frame example_uart 0
                [1; 1; 0; 0; 1; 0; 1; 0; 1; 1; 1]) as (H2 & _).
    + exact example_any_stop_config.
    + vm_compute. split; discriminate.
    + vm_compute. discriminate.
    + split; [exact H1 | exact H2].
Defined.
